(** * Youth Employment Platform: API client and server bootstrap

    A shallow embedding of
    - [frontend/src/utils/api.js]: the axios client wrapper (response
      interceptor, auth-state helpers, retry helper), in [Module Api];
    - the server entry point with [connectDB], [startServer] and the
      [/api/health] route, in [Module Server];
    - [backend/server.js], the older entry point, in [Module LegacyServer];
    - the rest of [api.js] (request interceptor, success handler,
      [handleApiError], the progress callback of [uploadFile]), in
      [Module Client].

    Browser storage and header tables are finite maps from strings to
    strings; JavaScript numbers that the code only compares, multiplies by
    small integers or passes on are integers ([Z]); asynchronous functions
    are modelled by the order of their effects, one await after the other. *)

From stdpp Require Import gmap strings pretty list.
From Stdlib Require Import ZArith Lia Ascii Decimal DecimalZ QArith Qround.

#[local] Set Warnings "-register-all".
Local Open Scope Z_scope.

Module Api.

(** ** The retry helper, [apiWithRetry] *)

(** What an observer of one run of the helper can see, in order: the wrapped
    call being invoked, a [setTimeout] wait of [ms] milliseconds, a line
    written with [console.log]. *)
Inductive event : Type :=
| Invoked
| Waited (ms : Z)
| Logged (line : string).

(** How the promise returned by the helper settles. An [async] function
    that runs off its end resolves with [undefined]: [Resolved None]. *)
Inductive settled (Value Err : Type) : Type :=
| Resolved (v : option Value)
| Rejected (e : Err).
Arguments Resolved {Value Err} v.
Arguments Rejected {Value Err} e.

Record retry_run (World Value Err : Type) : Type := RetryRun {
  outcome : settled Value Err;
  final_world : World;
  trace : list event
}.
Arguments RetryRun {World Value Err} _ _ _.
Arguments outcome {World Value Err} _.
Arguments final_world {World Value Err} _.
Arguments trace {World Value Err} _.

Definition is_invocation (ev : event) : bool :=
  match ev with Invoked => true | _ => false end.

(** Number of times the wrapped call was invoked in a trace. *)
Definition invocations (tr : list event) : nat :=
  length (List.filter is_invocation tr).

(** The waits of a trace, in order. *)
Fixpoint delays (tr : list event) : list Z :=
  match tr with
  | [] => []
  | Waited ms :: tr' => ms :: delays tr'
  | _ :: tr' => delays tr'
  end.

Definition retry_message (attempt : Z) : string :=
  "🔄 Retrying API call (attempt " +:+ pretty (attempt + 1) +:+ ")...".

Section Retry.
Context {World Value Err : Type}.

(** One invocation of [apiCall()] followed by [await]: it either rejects
    ([inl error]) or fulfils ([inr value]), and may change the world it
    runs in (server state, counters, storage). *)
Variable apiCall : World -> (Err + Value) * World.
Variables maxRetries delay : Z.

(** The [for] loop of [apiWithRetry], entered at its condition with the
    current value of [attempt]. [fuel] bounds the number of iterations;
    [None] is returned only when it is used up. *)
Fixpoint retry_loop (fuel : nat) (attempt : Z) (w : World) (tr : list event)
  : option (retry_run World Value Err) :=
  if attempt <=? maxRetries then
    match fuel with
    | O => None
    | S fuel' =>
        match apiCall w with
        | (inr value, w') =>
            Some (RetryRun (Resolved (Some value)) w' (tr ++ [Invoked]))
        | (inl error, w') =>
            if attempt =? maxRetries then
              Some (RetryRun (Rejected error) w' (tr ++ [Invoked]))
            else
              retry_loop fuel' (attempt + 1) w'
                (tr ++ [Invoked; Waited (delay * attempt);
                        Logged (retry_message attempt)])
        end
    end
  else Some (RetryRun (Resolved None) w tr).

(** The world after the first [n] invocations of the call, starting in [w]. *)
Fixpoint world_after (n : nat) (w : World) : World :=
  match n with
  | O => w
  | S k => snd (apiCall (world_after k w))
  end.

(** The settlement of invocation number [n + 1] of the call. *)
Definition nth_result (n : nat) (w : World) : Err + Value :=
  fst (apiCall (world_after n w)).

Definition always_fails : Prop :=
  forall w, exists error, fst (apiCall w) = inl error.

End Retry.

(** What [count] failed attempts in a row leave in the trace, the first of
    them being attempt number [from]: an invocation, a wait of [delay] times
    the attempt number, a log line. *)
Fixpoint backoff (delay : Z) (from : Z) (count : nat) : list event :=
  match count with
  | O => []
  | S count' =>
      [Invoked; Waited (delay * from); Logged (retry_message from)] ++
      backoff delay (from + 1) count'
  end.

(** [apiWithRetry(apiCall, maxRetries, delay)]. The loop starts at
    [attempt = 1] and runs at most [maxRetries] times, so that much fuel is
    enough (see [apiWithRetry_total]). *)
Definition apiWithRetry {World Value Err : Type}
    (apiCall : World -> (Err + Value) * World) (maxRetries delay : Z)
    (w : World) : option (retry_run World Value Err) :=
  retry_loop apiCall maxRetries delay (Z.to_nat maxRetries) 1 w [].

(** The defaults of the signature: [maxRetries = 3], [delay = 1000]. *)
Definition apiWithRetry_default {World Value Err : Type}
    (apiCall : World -> (Err + Value) * World) (w : World)
  : option (retry_run World Value Err) :=
  apiWithRetry apiCall 3 1000 w.

(** A call that fails a given number of times and then succeeds with the
    number of the successful invocation. The world is the count of
    invocations so far. *)
Definition flaky (failures : nat) (n : nat) : (string + nat) * nat :=
  if (n <? failures)%nat
  then (inl ("failure " +:+ pretty (S n)), S n)
  else (inr (S n), S n).

(** A call that always fails, each time with a different error. *)
Definition hopeless (n : nat) : (string + nat) * nat :=
  (inl ("failure " +:+ pretty (S n)), S n).

(** ** JSON values

    What [JSON.parse] returns and [JSON.stringify] accepts: the payloads of
    server responses and the stored user profile. Numbers are integers; an
    object is the list of its fields in enumeration order. *)
Inductive json : Type :=
| JNull
| JBool (b : bool)
| JNumber (n : Z)
| JString (s : string)
| JArray (items : list json)
| JObject (fields : list (string * json)).

(** [JSON.stringify] and [JSON.parse] belong to the platform, not to this
    repository. [JSON_parse] returns [None] where the platform function
    throws a [SyntaxError]: on text that is not valid JSON. *)
Class JsonCodec : Type := {
  JSON_stringify : json -> string;
  JSON_parse : string -> option json
}.

(** The part of the platform's contract the client relies on: parsing what
    was serialized gives the value back, and a serialization is never the
    empty string. *)
Class JsonRoundTrip (codec : JsonCodec) : Prop := {
  parse_stringify : forall v : json, JSON_parse (JSON_stringify v) = Some v;
  stringify_nonempty : forall v : json, JSON_stringify v <> ""
}.

(** A value as JavaScript code sees it: [None] is [undefined]. *)
Definition jsvalue : Type := option json.

(** Field access [value?.name] on a value that may be [undefined] or not an
    object. *)
Fixpoint assoc_get (name : string) (fields : list (string * json)) : jsvalue :=
  match fields with
  | [] => None
  | (k, v) :: rest => if String.eqb k name then Some v else assoc_get name rest
  end.

Definition get_field (name : string) (value : jsvalue) : jsvalue :=
  match value with
  | Some (JObject fields) => assoc_get name fields
  | _ => None
  end.

(** JavaScript truthiness. *)
Definition truthy (value : jsvalue) : bool :=
  match value with
  | None => false
  | Some JNull => false
  | Some (JBool b) => b
  | Some (JNumber n) => negb (n =? 0)
  | Some (JString s) => negb (String.eqb s "")
  | Some (JArray _) => true
  | Some (JObject _) => true
  end.

(** Truthiness of what [localStorage.getItem] returns: a string or [null]. *)
Definition truthy_item (item : option string) : bool :=
  match item with
  | None => false
  | Some s => negb (String.eqb s "")
  end.

(** [haystack.includes(needle)]. *)
Fixpoint includes (needle haystack : string) : bool :=
  String.prefix needle haystack ||
  match haystack with
  | EmptyString => false
  | String _ rest => includes needle rest
  end.

(** ** Errors as axios hands them to the response interceptor *)

Record RequestConfig : Type := {
  url : option string;
  method : option string
}.

Record Response : Type := {
  status : Z;
  data : jsvalue
}.

(** The properties of the rejection value the handler reads. Each may be
    missing: the handler itself reads [error.config?.url] and tests
    [error.response] and [error.request]. *)
Record AxiosError : Type := {
  config : option RequestConfig;
  response : option Response;
  request : bool;
  message : string
}.

(** Values thrown, or carried by a rejected promise. *)
Inductive thrown : Type :=
| ThrownError (error : AxiosError)
| TypeError (what : string)
| SyntaxError (text : string)
| DOMException (name : string).

(** Arguments of [console.log] and [console.error]. *)
Inductive logged : Type :=
| LogUndefined
| LogString (s : string)
| LogNumber (n : Z)
| LogValue (v : json)
| LogThrown (t : thrown)
| LogObject (fields : list (string * logged)).

Definition log_optional_string (o : option string) : logged :=
  match o with Some s => LogString s | None => LogUndefined end.

Definition log_jsvalue (v : jsvalue) : logged :=
  match v with Some j => LogValue j | None => LogUndefined end.

(** ** Browser state and effects *)

(** What the page does that can be observed from outside the function
    running: console output, writes to [localStorage] and to the client's
    default headers, assignments to [window.location.href], and requests
    sent over the network. *)
Inductive effect : Type :=
| ConsoleLog (args : list logged)
| ConsoleError (args : list logged)
| StorageSet (key value : string)
| StorageRemove (key : string)
| HeaderSet (name value : string)
| HeaderDelete (name : string)
| Navigate (href : string)
| HttpRequest (verb endpoint : string).

(** [localStorage], [api.defaults.headers.common], the path of
    [window.location], and the effects performed so far, oldest first. *)
Record Browser : Type := {
  localStorage : gmap string string;
  common_headers : gmap string string;
  pathname : string;
  effects : list effect
}.

(** Code running in the browser: it changes the state and either returns a
    value or throws. *)
Definition Js (A : Type) : Type := Browser -> (thrown + A) * Browser.

Definition ret {A : Type} (a : A) : Js A := fun b => (inr a, b).

Definition throw {A : Type} (t : thrown) : Js A := fun b => (inl t, b).

Definition bind {A B : Type} (m : Js A) (k : A -> Js B) : Js B :=
  fun b =>
    match m b with
    | (inr a, b') => k a b'
    | (inl t, b') => (inl t, b')
    end.

Definition try_catch {A : Type} (body : Js A) (handler : thrown -> Js A) : Js A :=
  fun b =>
    match body b with
    | (inr a, b') => (inr a, b')
    | (inl t, b') => handler t b'
    end.

Notation "'let!' x ':=' m 'in' k" := (bind m (fun x => k))
  (at level 10, x name, m at level 100, k at level 200).
Notation "m ';;' k" := (bind m (fun _ => k))
  (at level 100, k at level 200, right associativity).

Definition perform (e : effect) (b : Browser) : Browser :=
  {| localStorage := localStorage b; common_headers := common_headers b;
     pathname := pathname b; effects := effects b ++ [e] |}.

Definition console_log (args : list logged) : Js unit :=
  fun b => (inr tt, perform (ConsoleLog args) b).

Definition console_error (args : list logged) : Js unit :=
  fun b => (inr tt, perform (ConsoleError args) b).

Definition localStorage_getItem (key : string) : Js (option string) :=
  fun b => (inr (localStorage b !! key), b).

(** [localStorage.setItem] in a storage area with room left: the write
    happens. [Page.setItem] is the call under a quota, which can throw. *)
Definition localStorage_setItem (key value : string) : Js unit :=
  fun b =>
    (inr tt,
     {| localStorage := <[key := value]> (localStorage b);
        common_headers := common_headers b; pathname := pathname b;
        effects := effects b ++ [StorageSet key value] |}).

Definition localStorage_removeItem (key : string) : Js unit :=
  fun b =>
    (inr tt,
     {| localStorage := delete key (localStorage b);
        common_headers := common_headers b; pathname := pathname b;
        effects := effects b ++ [StorageRemove key] |}).

(** [api.defaults.headers.common[name] = value]. *)
Definition set_common_header (name value : string) : Js unit :=
  fun b =>
    (inr tt,
     {| localStorage := localStorage b;
        common_headers := <[name := value]> (common_headers b);
        pathname := pathname b;
        effects := effects b ++ [HeaderSet name value] |}).

(** [delete api.defaults.headers.common[name]]. *)
Definition delete_common_header (name : string) : Js unit :=
  fun b =>
    (inr tt,
     {| localStorage := localStorage b;
        common_headers := delete name (common_headers b);
        pathname := pathname b;
        effects := effects b ++ [HeaderDelete name] |}).

Definition location_pathname : Js string :=
  fun b => (inr (pathname b), b).

(** [window.location.href = href]: the browser starts a navigation; the
    current document, and its path, stay until it is replaced. *)
Definition set_location_href (href : string) : Js unit :=
  fun b => (inr tt, perform (Navigate href) b).

(** ** The response interceptor's error handler (api.js, lines 43-101) *)

Definition api_error_summary (error : AxiosError) : logged :=
  LogObject
    [("url", log_optional_string (match config error with
                                  | Some c => url c | None => None end));
     ("method", log_optional_string (match config error with
                                     | Some c => method c | None => None end));
     ("status", match response error with
                | Some r => LogNumber (status r) | None => LogUndefined end);
     ("message", LogString (message error));
     ("response", match response error with
                  | Some r => log_jsvalue (data r) | None => LogUndefined end)].

(** [case 401]: clear the stored credentials and go to the login page,
    unless the page shown is already a login page. *)
Definition on_unauthorized : Js unit :=
  localStorage_removeItem "token" ;;
  localStorage_removeItem "user" ;;
  delete_common_header "Authorization" ;;
  let! path := location_pathname in
  if negb (includes "/login" path)
  then set_location_href "/login"
  else ret tt.

(** [case 404]: [error.config.url] is read without a guard, so it throws
    when the error carries no [config]. *)
Definition on_not_found (error : AxiosError) : Js unit :=
  match config error with
  | Some c =>
      console_error [LogString "Resource not found:"; log_optional_string (url c)]
  | None =>
      throw (TypeError "Cannot read properties of undefined (reading 'url')")
  end.

(** [default]: [data?.message || 'Unknown error']. *)
Definition on_other_status (status : Z) (data : jsvalue) : Js unit :=
  console_error
    [LogString ("Server error (" +:+ pretty status +:+ "):");
     if truthy (get_field "message" data)
     then log_jsvalue (get_field "message" data)
     else LogString "Unknown error"].

Definition responseRejected (error : AxiosError) : Js Response :=
  console_error [LogString "❌ API Error:"; api_error_summary error] ;;
  match response error with
  | Some r =>
      let status := status r in
      let data := data r in
      if status =? 401 then on_unauthorized
      else if status =? 403 then
        console_error
          [LogString "Access denied: You do not have permission for this action"]
      else if status =? 404 then on_not_found error
      else if status =? 500 then
        console_error
          [LogString "Server error occurred. Please try again later."]
      else on_other_status status data
  | None =>
      if request error then
        console_error
          [LogString "Network error: No response from server. Please check your connection."]
      else
        console_error [LogString "Request setup error:"; LogString (message error)]
  end ;;
  throw (ThrownError error).

(** ** Auth-state helpers (api.js, lines 104-133) *)

Definition isAuthenticated : Js bool :=
  let! token := localStorage_getItem "token" in
  ret (truthy_item token).

Section AuthHelpers.
Context {codec : JsonCodec}.

(** [JSON.parse(text)] as a statement that may throw. *)
Definition JSON_parse_or_throw (text : string) : Js json :=
  match JSON_parse text with
  | Some value => ret value
  | None => throw (SyntaxError text)
  end.

Definition getCurrentUser : Js json :=
  try_catch
    (let! userStr := localStorage_getItem "user" in
     if truthy_item userStr
     then JSON_parse_or_throw (default "" userStr)
     else ret JNull)
    (fun error =>
       console_error [LogString "Error parsing user data:"; LogThrown error] ;;
       ret JNull).

(** [setAuth] on a user that is a JSON value, in a storage area with room
    left: both writes happen. [Page.setAuth] is the call on any value,
    under a quota. *)
Definition setAuth (token : string) (user : json) : Js unit :=
  localStorage_setItem "token" token ;;
  localStorage_setItem "user" (JSON_stringify user) ;;
  set_common_header "Authorization" ("Bearer " +:+ token).

End AuthHelpers.

Definition clearAuth : Js unit :=
  localStorage_removeItem "token" ;;
  localStorage_removeItem "user" ;;
  delete_common_header "Authorization".

(** The state a computation leaves behind, and what it returned or threw. *)
Definition state_after {A : Type} (m : Js A) (b : Browser) : Browser := snd (m b).
Definition result_of {A : Type} (m : Js A) (b : Browser) : thrown + A := fst (m b).

(** The effects a computation added to those already performed in [b]. *)
Definition new_effects {A : Type} (m : Js A) (b : Browser) : list effect :=
  drop (length (effects b)) (effects (state_after m b)).

Definition count_effect (p : effect -> bool) (l : list effect) : nat :=
  length (List.filter p l).

Definition is_navigation (e : effect) : bool :=
  match e with Navigate _ => true | _ => false end.

Definition is_storage_removal (key : string) (e : effect) : bool :=
  match e with StorageRemove k => String.eqb k key | _ => false end.

Definition is_header_removal (name : string) (e : effect) : bool :=
  match e with HeaderDelete n => String.eqb n name | _ => false end.

Definition is_http_request (e : effect) : bool :=
  match e with HttpRequest _ _ => true | _ => false end.

(** The stored credential pair: the token is there exactly when the user is. *)
Definition credentials_paired (b : Browser) : Prop :=
  is_Some (localStorage b !! "token") <-> is_Some (localStorage b !! "user").

(** An error that carries a 404 response and no [config]. *)
Definition not_found_without_config : AxiosError :=
  {| config := None;
     response := Some {| status := 404; data := None |};
     request := true;
     message := "Request failed with status code 404" |}.

(** A 401 error as axios raises it for [GET /jobs]. *)
Definition unauthorized_error : AxiosError :=
  {| config := Some {| url := Some "/jobs"; method := Some "get" |};
     response :=
       Some {| status := 401;
               data := Some (JObject [("message", JString "Not authorized")]) |};
     request := true;
     message := "Request failed with status code 401" |}.

(** A signed-in browser showing the page at [path]. *)
Definition signed_in (path user_text : string) : Browser :=
  {| localStorage := <["user" := user_text]> (<["token" := "abc.def.ghi"]> ∅);
     common_headers := <["Authorization" := "Bearer abc.def.ghi"]> ∅;
     pathname := path;
     effects := [] |}.

(** A browser whose stored token is the empty string. *)
Definition empty_token_browser : Browser :=
  {| localStorage := <["token" := ""]> ∅; common_headers := ∅;
     pathname := "/"; effects := [] |}.

(** A browser with empty storage. *)
Definition signed_out (path : string) : Browser :=
  {| localStorage := ∅; common_headers := ∅; pathname := path; effects := [] |}.

Definition is_unauthorized (error : AxiosError) : Prop :=
  exists r, response error = Some r /\ status r = 401.

(** One step of the client that writes the credential pair: a call of
    [setAuth], a call of [clearAuth], or the interceptor handling a 401. *)
Inductive auth_step {codec : JsonCodec} : Browser -> Browser -> Prop :=
| step_setAuth (token : string) (user : json) (b : Browser) :
    auth_step b (state_after (setAuth token user) b)
| step_clearAuth (b : Browser) :
    auth_step b (state_after clearAuth b)
| step_unauthorized (error : AxiosError) (b : Browser) :
    is_unauthorized error ->
    auth_step b (state_after (responseRejected error) b).

(** The states the client can reach from [b] by such steps. *)
Inductive auth_reachable {codec : JsonCodec} (b : Browser) : Browser -> Prop :=
| reach_start : auth_reachable b b
| reach_step (b1 b2 : Browser) :
    auth_reachable b b1 -> auth_step b1 b2 -> auth_reachable b b2.

End Api.

Module JsonText.

(** ** JSON text

    A serializer and a parser for [json] values in the compact form
    [JSON.stringify] writes, following ECMA-404: the standard codec of the
    development. Numbers are integers, written with all their digits and
    read back exactly: a number text with a fraction or an exponent is
    refused, where [JSON.parse] reads it, and an integer beyond [2^53]
    keeps its digits, where [JSON.parse] rounds it to a double. [\u]
    escapes of surrogate halves are not read. *)

Import Api.

Definition quote : ascii := "034"%char.
Definition backslash : ascii := "\"%char.

Definition digit_of (c : ascii) : option (uint -> uint) :=
  match c with
  | "0"%char => Some D0 | "1"%char => Some D1 | "2"%char => Some D2
  | "3"%char => Some D3 | "4"%char => Some D4 | "5"%char => Some D5
  | "6"%char => Some D6 | "7"%char => Some D7 | "8"%char => Some D8
  | "9"%char => Some D9
  | _ => None
  end.

(** The digits of [u], then [k]. *)
Fixpoint print_uint (u : uint) (k : string) : string :=
  match u with
  | Nil => k
  | D0 u => String "0" (print_uint u k)
  | D1 u => String "1" (print_uint u k)
  | D2 u => String "2" (print_uint u k)
  | D3 u => String "3" (print_uint u k)
  | D4 u => String "4" (print_uint u k)
  | D5 u => String "5" (print_uint u k)
  | D6 u => String "6" (print_uint u k)
  | D7 u => String "7" (print_uint u k)
  | D8 u => String "8" (print_uint u k)
  | D9 u => String "9" (print_uint u k)
  end.

(** The longest run of digits at the start of [s], and what follows it. *)
Fixpoint parse_uint (s : string) : uint * string :=
  match s with
  | EmptyString => (Nil, EmptyString)
  | String c rest =>
      match digit_of c with
      | Some d => let (u, r) := parse_uint rest in (d u, r)
      | None => (Nil, s)
      end
  end.

(** At least one digit, and no leading zero before another digit. *)
Definition plain_digits (u : uint) : bool := uint_beq (unorm u) u.

Definition print_Z (n : Z) (k : string) : string :=
  match Z.to_int n with
  | Pos u => print_uint u k
  | Neg u => String "-" (print_uint u k)
  end.

Definition hex_digit (n : N) : ascii :=
  match n with
  | 0%N => "0" | 1%N => "1" | 2%N => "2" | 3%N => "3" | 4%N => "4"
  | 5%N => "5" | 6%N => "6" | 7%N => "7" | 8%N => "8" | 9%N => "9"
  | 10%N => "a" | 11%N => "b" | 12%N => "c" | 13%N => "d" | 14%N => "e"
  | _ => "f"
  end%char.

(** The value of a hexadecimal digit, in either case. *)
Definition hex_value (c : ascii) : option N :=
  let code := N_of_ascii c in
  if ((48 <=? code) && (code <=? 57))%N then Some (code - 48)%N
  else if ((97 <=? code) && (code <=? 102))%N then Some (code - 87)%N
  else if ((65 <=? code) && (code <=? 70))%N then Some (code - 55)%N
  else None.

Definition hex4 (a b c d : ascii) : option N :=
  match hex_value a, hex_value b, hex_value c, hex_value d with
  | Some x, Some y, Some z, Some w => Some (((x * 16 + y) * 16 + z) * 16 + w)%N
  | _, _, _, _ => None
  end.

(** The bytes of the code point [code] in UTF-8; [None] for a surrogate
    half. *)
Definition utf8 (code : N) : option string :=
  if (code <? 128)%N then Some (String (ascii_of_N code) EmptyString)
  else if (code <? 2048)%N then
    Some (String (ascii_of_N (192 + code / 64))
           (String (ascii_of_N (128 + code mod 64)) EmptyString))
  else if ((55296 <=? code) && (code <? 57344))%N then None
  else
    Some (String (ascii_of_N (224 + code / 4096))
           (String (ascii_of_N (128 + (code / 64) mod 64))
              (String (ascii_of_N (128 + code mod 64)) EmptyString))).

(** One character of a string literal, escaped as [JSON.stringify] does. *)
Definition print_char (c : ascii) (k : string) : string :=
  match c with
  | "034" => String backslash (String quote k)
  | "\" => String backslash (String backslash k)
  | "008" => String backslash (String "b" k)
  | "009" => String backslash (String "t" k)
  | "010" => String backslash (String "n" k)
  | "012" => String backslash (String "f" k)
  | "013" => String backslash (String "r" k)
  | _ =>
      if (N_of_ascii c <? 32)%N then
        String backslash
          (String "u"
             (String "0"
                (String "0"
                   (String (hex_digit (N_of_ascii c / 16))
                      (String (hex_digit (N_of_ascii c mod 16)) k)))))
      else String c k
  end%char.

Fixpoint print_chars (s : string) (k : string) : string :=
  match s with
  | EmptyString => k
  | String c rest => print_char c (print_chars rest k)
  end.

(** A string literal: [s] escaped, between quotes, then [k]. *)
Definition print_string (s : string) (k : string) : string :=
  String quote (print_chars s (String quote k)).

(** The characters of a string literal after its opening quote, up to the
    closing quote: the string they denote, and what follows the literal. *)
Fixpoint parse_chars (s : string) : option (string * string) :=
  match s with
  | EmptyString => None
  | String c rest =>
      match c with
      | "034" => Some (EmptyString, rest)
      | "\" =>
          match rest with
          | String e rest' =>
              let unescaped (c' : ascii) :=
                match parse_chars rest' with
                | Some (str, r) => Some (String c' str, r)
                | None => None
                end in
              match e with
              | "034" => unescaped "034"
              | "\" => unescaped "\"
              | "/" => unescaped "/"
              | "b" => unescaped "008"
              | "f" => unescaped "012"
              | "n" => unescaped "010"
              | "r" => unescaped "013"
              | "t" => unescaped "009"
              | "u" =>
                  match rest' with
                  | String h1 (String h2 (String h3 (String h4 rest''))) =>
                      match hex4 h1 h2 h3 h4 with
                      | Some code =>
                          match utf8 code, parse_chars rest'' with
                          | Some bytes, Some (str, r) => Some (bytes +:+ str, r)
                          | _, _ => None
                          end
                      | None => None
                      end
                  | _ => None
                  end
              | _ => None
              end
          | EmptyString => None
          end
      | _ =>
          if (N_of_ascii c <? 32)%N then None
          else
            match parse_chars rest with
            | Some (str, r) => Some (String c str, r)
            | None => None
            end
      end
  end%char.

Definition is_whitespace (c : ascii) : bool :=
  match c with
  | " " | "009" | "010" | "013" => true
  | _ => false
  end%char.

Fixpoint skip_whitespace (s : string) : string :=
  match s with
  | EmptyString => EmptyString
  | String c rest => if is_whitespace c then skip_whitespace rest else s
  end.

(** [s] without its prefix [p], when it starts with it. *)
Fixpoint strip_prefix (p s : string) : option string :=
  match p with
  | EmptyString => Some s
  | String a p' =>
      match s with
      | String b s' => if Ascii.eqb a b then strip_prefix p' s' else None
      | EmptyString => None
      end
  end.

(** What follows the bracket [c], when [s] starts with it after white
    space. *)
Definition closes (c : ascii) (s : string) : option string :=
  match skip_whitespace s with
  | String c' r => if Ascii.eqb c c' then Some r else None
  | EmptyString => None
  end.

(** The characters a value can start with. *)
Definition value_start (c : ascii) : bool :=
  match c with
  | "n" | "t" | "f" | "034" | "[" | "{" | "-" => true
  | _ => match digit_of c with Some _ => true | None => false end
  end%char.

(** Text after which a number ends: it does not start with a digit. *)
Definition ends_number (k : string) : bool :=
  match k with
  | EmptyString => true
  | String c _ => match digit_of c with Some _ => false | None => true end
  end.

(** A member of an object: a string literal, a colon, a value. *)
Definition parse_member (parse_v : string -> option (json * string)) (s : string)
  : option ((string * json) * string) :=
  match skip_whitespace s with
  | String c rest =>
      if Ascii.eqb c quote then
        match parse_chars rest with
        | Some (key, r) =>
            match skip_whitespace r with
            | String ":" r' =>
                match parse_v r' with
                | Some (v, r'') => Some ((key, v), r'')
                | None => None
                end
            | _ => None
            end
        | None => None
        end
      else None
  | EmptyString => None
  end.

(** A value at the start of [s], and what follows it. Each nested value and
    each further element or member takes one unit of [fuel]. *)
Fixpoint parse_value (fuel : nat) (s : string) {struct fuel}
  : option (json * string) :=
  match fuel with
  | O => None
  | S fuel =>
      match skip_whitespace s with
      | EmptyString => None
      | String c rest =>
          match c with
          | "n" => r ← strip_prefix "ull" rest; Some (JNull, r)
          | "t" => r ← strip_prefix "rue" rest; Some (JBool true, r)
          | "f" => r ← strip_prefix "alse" rest; Some (JBool false, r)
          | "034" =>
              match parse_chars rest with
              | Some (str, r) => Some (JString str, r)
              | None => None
              end
          | "[" =>
              match closes "]" rest with
              | Some r => Some (JArray [], r)
              | None =>
                  match parse_value fuel rest with
                  | Some (v, r) =>
                      match parse_elements fuel r with
                      | Some (vs, r') => Some (JArray (v :: vs), r')
                      | None => None
                      end
                  | None => None
                  end
              end
          | "{" =>
              match closes "}" rest with
              | Some r => Some (JObject [], r)
              | None =>
                  match parse_member (parse_value fuel) rest with
                  | Some (kv, r) =>
                      match parse_members fuel r with
                      | Some (kvs, r') => Some (JObject (kv :: kvs), r')
                      | None => None
                      end
                  | None => None
                  end
              end
          | "-" =>
              let (u, r) := parse_uint rest in
              if plain_digits u then Some (JNumber (Z.of_int (Neg u)), r)
              else None
          | _ =>
              match digit_of c with
              | Some _ =>
                  let (u, r) := parse_uint (String c rest) in
                  if plain_digits u then Some (JNumber (Z.of_int (Pos u)), r)
                  else None
              | None => None
              end
          end
      end
  end%char
with parse_elements (fuel : nat) (s : string) {struct fuel}
  : option (list json * string) :=
  match fuel with
  | O => None
  | S fuel =>
      match skip_whitespace s with
      | String "]" r => Some ([], r)
      | String "," r =>
          match parse_value fuel r with
          | Some (v, r') =>
              match parse_elements fuel r' with
              | Some (vs, r'') => Some (v :: vs, r'')
              | None => None
              end
          | None => None
          end
      | _ => None
      end
  end%char
with parse_members (fuel : nat) (s : string) {struct fuel}
  : option (list (string * json) * string) :=
  match fuel with
  | O => None
  | S fuel =>
      match skip_whitespace s with
      | String "}" r => Some ([], r)
      | String "," r =>
          match parse_member (parse_value fuel) r with
          | Some (kv, r') =>
              match parse_members fuel r' with
              | Some (kvs, r'') => Some (kv :: kvs, r'')
              | None => None
              end
          | None => None
          end
      | _ => None
      end
  end%char.

(** The text of [v], then [k]. *)
Fixpoint print_value (v : json) (k : string) {struct v} : string :=
  match v with
  | JNull => String "n" (String "u" (String "l" (String "l" k)))
  | JBool true => String "t" (String "r" (String "u" (String "e" k)))
  | JBool false =>
      String "f" (String "a" (String "l" (String "s" (String "e" k))))
  | JNumber n => print_Z n k
  | JString s => print_string s k
  | JArray [] => String "[" (String "]" k)
  | JArray (x :: xs) =>
      String "["
        (print_value x
           ((fix print_elements (l : list json) : string :=
               match l with
               | [] => String "]" k
               | y :: ys => String "," (print_value y (print_elements ys))
               end) xs))
  | JObject [] => String "{" (String "}" k)
  | JObject ((key, x) :: xs) =>
      String "{"
        (print_string key
           (String ":"
              (print_value x
                 ((fix print_members (l : list (string * json)) : string :=
                     match l with
                     | [] => String "}" k
                     | (key', y) :: ys =>
                         String ","
                           (print_string key'
                              (String ":" (print_value y (print_members ys))))
                     end) xs))))
  end%char.

(** The elements after the first, each behind a comma, then the closing
    bracket and [k]. *)
Definition print_elements (k : string) : list json -> string :=
  fix print_elements (l : list json) : string :=
    match l with
    | [] => String "]" k
    | y :: ys => String "," (print_value y (print_elements ys))
    end%char.

Definition print_members (k : string) : list (string * json) -> string :=
  fix print_members (l : list (string * json)) : string :=
    match l with
    | [] => String "}" k
    | (key', y) :: ys =>
        String ","
          (print_string key' (String ":" (print_value y (print_members ys))))
    end%char.

(** The units of fuel that reading a value back takes; never more than the
    length of its text. *)
Fixpoint size (v : json) : nat :=
  match v with
  | JArray (x :: xs) =>
      S (size x +
         (fix sizes (l : list json) : nat :=
            match l with
            | [] => 1
            | y :: ys => S (size y + sizes ys)
            end) xs)
  | JObject ((_, x) :: xs) =>
      S (size x +
         (fix sizes (l : list (string * json)) : nat :=
            match l with
            | [] => 1
            | (_, y) :: ys => S (size y + sizes ys)
            end) xs)
  | _ => 1
  end%nat.

Fixpoint size_elements (l : list json) : nat :=
  match l with
  | [] => 1
  | x :: xs => S (size x + size_elements xs)
  end%nat.

Fixpoint size_members (l : list (string * json)) : nat :=
  match l with
  | [] => 1
  | (_, x) :: xs => S (size x + size_members xs)
  end%nat.

Definition stringify (v : json) : string := print_value v EmptyString.

(** The whole text must be one value, with white space around it at most. *)
Definition parse (text : string) : option json :=
  match parse_value (S (String.length text)) text with
  | Some (v, rest) =>
      match skip_whitespace rest with
      | EmptyString => Some v
      | _ => None
      end
  | None => None
  end.

(** With enough fuel, the parser reads [v] back from its text, whatever
    follows it, as long as that does not continue a number. *)
Definition reads_back (v : json) : Prop :=
  forall (fuel : nat) (k : string),
    (size v <= fuel)%nat -> ends_number k = true ->
    parse_value fuel (print_value v k) = Some (v, k).

(** The text of [v] is at least as long as the fuel reading it takes. *)
Definition fits (v : json) : Prop :=
  forall k : string,
    (size v + String.length k <= String.length (print_value v k))%nat.

#[export] Instance text_codec : JsonCodec :=
  {| JSON_stringify := stringify; JSON_parse := parse |}.

(** The user profile the server sends after login. *)
Definition sample_user : json :=
  JObject [("id", JNumber 42); ("name", JString "Amina O'Neil");
           ("roles", JArray [JString "seeker"; JNull; JBool true]);
           ("bio", JString "line one
	tab \ slash")].

End JsonText.

Module Server.

(** ** The server entry point: [connectDB], [startServer], [/api/health] *)

(** The error [mongoose.connect] rejects with, and the handle it resolves
    with ([conn.connection.host], [conn.connection.name]). *)
Record MongoError : Type := {
  error_name : string;
  error_message : string
}.

Record MongoConnection : Type := {
  host : string;
  db_name : string
}.

Inductive console_line : Type :=
| Log (text : string)
| Error (text : string).

(** [process.env.PORT || 5000] is a string from the environment or the
    number 5000. *)
Inductive port_value : Type :=
| PortString (s : string)
| PortNumber (n : Z).

(** The Node process: its environment, the state of [mongoose.connection]
    (0 disconnected, 1 connected, 2 connecting, 3 disconnecting), the port
    the HTTP server listens on once [app.listen] has run, the exit code once
    [process.exit] has run, and the console output, oldest first. *)
Record Process : Type := {
  env : gmap string string;
  readyState : Z;
  listening : option port_value;
  exit_code : option Z;
  console : list console_line
}.

(** What the outside decides during one start of the server: how the
    connection attempt ends, what [app.listen] does, and the clock.
    [listen_failure] is [None] when [app.listen] binds the port, and holds
    the error when [app.listen] throws at once (a port number out of
    range). The port is taken to be free: a bind failure that the platform
    reports later, without a throw, is not among these worlds. *)
Record World : Type := {
  connect_outcome : MongoError + MongoConnection;
  listen_failure : option string;
  clock_ms : Z
}.

Definition say (line : console_line) (p : Process) : Process :=
  {| env := env p; readyState := readyState p; listening := listening p;
     exit_code := exit_code p; console := console p ++ [line] |}.

Definition say_all (lines : list console_line) (p : Process) : Process :=
  {| env := env p; readyState := readyState p; listening := listening p;
     exit_code := exit_code p; console := console p ++ lines |}.

Definition set_readyState (state : Z) (p : Process) : Process :=
  {| env := env p; readyState := state; listening := listening p;
     exit_code := exit_code p; console := console p |}.

Definition set_env (name value : string) (p : Process) : Process :=
  {| env := <[name := value]> (env p); readyState := readyState p;
     listening := listening p; exit_code := exit_code p; console := console p |}.

Definition listen_on (port : port_value) (p : Process) : Process :=
  {| env := env p; readyState := readyState p; listening := Some port;
     exit_code := exit_code p; console := console p |}.

(** [process.exit(code)]. *)
Definition process_exit (code : Z) (p : Process) : Process :=
  {| env := env p; readyState := readyState p; listening := listening p;
     exit_code := Some code; console := console p |}.

(** [process.env.NAME] is truthy: set, and not the empty string. *)
Definition env_set (name : string) (p : Process) : bool :=
  match env p !! name with
  | Some value => negb (String.eqb value "")
  | None => false
  end.

(** [process.env.NAME || fallback]. *)
Definition env_or (name fallback : string) (p : Process) : string :=
  if env_set name p then default "" (env p !! name) else fallback.

Definition PORT (p : Process) : port_value :=
  if env_set "PORT" p then PortString (default "" (env p !! "PORT"))
  else PortNumber 5000.

Definition show_port (port : port_value) : string :=
  match port with
  | PortString s => s
  | PortNumber n => pretty n
  end.

(** The environment check and the defaults at the top of the file. *)
Definition configure (w : World) (p : Process) : Process :=
  let p :=
    say_all
      [Log "🔧 Environment check:";
       Log ("   JWT_SECRET: " +:+
            (if env_set "JWT_SECRET" p then "✅ Set" else "❌ Missing"));
       Log ("   JWT_EXPIRE: " +:+
            (if env_set "JWT_EXPIRE" p
             then "✅ Set to: " +:+ default "" (env p !! "JWT_EXPIRE")
             else "❌ Missing"));
       Log ("   MONGODB_URI: " +:+
            (if env_set "MONGODB_URI" p then "✅ Set" else "❌ Missing"));
       Log ("   PORT: " +:+
            (if env_set "PORT" p
             then "✅ Set to: " +:+ default "" (env p !! "PORT")
             else "❌ Missing"))] p in
  let p :=
    if env_set "JWT_SECRET" p then p
    else set_env "JWT_SECRET"
           ("dev-secret-key-change-in-production-" +:+ pretty (clock_ms w))
           (say (Log "⚠️  JWT_SECRET not found, using development default") p) in
  if env_set "JWT_EXPIRE" p then p
  else set_env "JWT_EXPIRE" "30d"
         (say (Log "⚠️  JWT_EXPIRE not found, using default: 30d") p).

(** The listeners registered on [mongoose.connection]. *)
Definition on_connected (p : Process) : Process :=
  say (Log "🔌 MongoDB connected successfully") p.

Definition on_error (err : MongoError) (p : Process) : Process :=
  say (Error ("❌ MongoDB connection error: " +:+ error_name err +:+ ": " +:+
              error_message err)) p.

Definition on_disconnected (p : Process) : Process :=
  say (Log "🔌 MongoDB disconnected") p.

(** [await mongoose.connect(uri, options)], as the driver behaves: while
    the attempt runs the connection is connecting; a successful attempt
    leaves it connected and fires ['connected'], a failed first attempt
    leaves it disconnected, fires ['disconnected'] and rejects. *)
Definition mongoose_connect (w : World) (uri : string) (p : Process)
  : (MongoError + MongoConnection) * Process :=
  let p := set_readyState 2 p in
  match connect_outcome w with
  | inr conn => (inr conn, on_connected (set_readyState 1 p))
  | inl err => (inl err, on_disconnected (set_readyState 0 p))
  end.

(** [connectDB]: the handle on success, [null] ([None]) on failure. *)
Definition connectDB (w : World) (p : Process) : option MongoConnection * Process :=
  let MONGODB_URI :=
    env_or "MONGODB_URI" "mongodb://localhost:27017/youth-employment" p in
  let p := say (Log "🔗 Attempting MongoDB connection...") p in
  match mongoose_connect w MONGODB_URI p with
  | (inr conn, p) =>
      let p := say (Log ("✅ MongoDB Connected: " +:+ host conn)) p in
      let p := say (Log ("📊 Database: " +:+ db_name conn)) p in
      (Some conn, p)
  | (inl error, p) =>
      let p :=
        say (Error ("❌ MongoDB connection error: " +:+ error_name error +:+
                    ": " +:+ error_message error)) p in
      let p :=
        if String.eqb (error_name error) "MongooseServerSelectionError" then
          say_all
            [Log "
💡 IP WHITELIST SOLUTION:";
             Log "   1. Go to MongoDB Atlas Dashboard";
             Log "   2. Navigate to Network Access";
             Log "   3. Add IP Address: 0.0.0.0/0";
             Log "   4. Or add Render-specific IP ranges";
             Log "   🔗 https://cloud.mongodb.com/v2/#/security/network/"] p
        else if String.eqb (error_name error) "MongoNetworkError" then
          say_all
            [Log "
💡 NETWORK SOLUTION:";
             Log "   Check your MongoDB connection string and network settings"] p
        else p in
      let p :=
        say (Log "🔄 Server will start without database connection. Some features may not work.") p in
      (None, p)
  end.

(** The callback of [app.listen]. *)
Definition on_listening (p : Process) : Process :=
  let p :=
    say_all
      [Log ("
🚀 Server running on port " +:+ show_port (PORT p));
       Log ("📊 Environment: " +:+ env_or "NODE_ENV" "development" p);
       Log "🌐 CORS enabled for:";
       Log "   - http://localhost:3000";
       Log "   - http://localhost:5173";
       Log "   - https://mern-final-project-atsienoclaire.vercel.app";
       Log "   - https://mern-final-project-atsienoclaire-2.onrender.com";
       Log "
📍 Health check: https://mern-final-project-atsienoclaire-2.onrender.com/api/health";
       Log "📍 API status: https://mern-final-project-atsienoclaire-2.onrender.com/api"] p in
  if negb (readyState p =? 1) then
    say_all
      [Log "
⚠️  WARNING: Database is not connected. Some features will not work.";
       Log "   Please check MongoDB Atlas IP whitelist settings."] p
  else p.

(** [startServer]: connect first, then listen, whatever [connectDB]
    returned. It rejects ([inl]) only when [app.listen] throws. *)
Definition startServer (w : World) (p : Process) : (string + unit) * Process :=
  let '(_, p) := connectDB w p in
  match listen_failure w with
  | Some error => (inl error, p)
  | None => (inr tt, on_listening (listen_on (PORT p) p))
  end.

(** [startServer().catch(...)]: the last statement of the file. *)
Definition start (w : World) (p : Process) : Process :=
  match startServer w p with
  | (inr _, p) => p
  | (inl error, p) =>
      process_exit 1 (say (Error ("❌ Failed to start server: " +:+ error)) p)
  end.

(** The file run from top to bottom. *)
Definition main (w : World) (p : Process) : Process :=
  start w (configure w p).

(** The [SIGINT] listener. *)
Definition on_SIGINT (p : Process) : Process :=
  let p := on_disconnected (set_readyState 0 p) in
  process_exit 0
    (say (Log "🛑 MongoDB connection closed due to app termination") p).

(** A process as the operating system starts it. *)
Definition fresh (environment : gmap string string) : Process :=
  {| env := environment; readyState := 0; listening := None;
     exit_code := None; console := [] |}.

(** An outside in which the database cannot be reached and the port can be
    bound. *)
Definition database_down (err : MongoError) (clock : Z) : World :=
  {| connect_outcome := inl err; listen_failure := None; clock_ms := clock |}.

(** *** Routes *)

Record StatusBody : Type := {
  status : option string;
  message : string;
  timestamp : string;
  environment : string;
  database : string
}.

Record HttpResponse : Type := {
  status_code : Z;
  body : StatusBody
}.

Definition database_state (p : Process) : string :=
  if readyState p =? 1 then "Connected" else "Disconnected".

(** [app.get('/api', ...)]; [res.json] answers with status 200. *)
Definition get_api (now : string) (p : Process) : HttpResponse :=
  {| status_code := 200;
     body := {| status := None;
                message := "Youth Employment Platform API";
                timestamp := now;
                environment := env_or "NODE_ENV" "development" p;
                database := database_state p |} |}.

(** [app.get('/api/health', ...)]. *)
Definition get_api_health (now : string) (p : Process) : HttpResponse :=
  {| status_code := 200;
     body := {| status := Some "OK";
                message := "Server is running";
                timestamp := now;
                environment := env_or "NODE_ENV" "development" p;
                database := database_state p |} |}.

(** A request for [GET /api/health] is answered when the process is alive
    and its server listens. *)
Definition request_health (now : string) (p : Process) : option HttpResponse :=
  match exit_code p, listening p with
  | None, Some _ => Some (get_api_health now p)
  | _, _ => None
  end.

End Server.

Module LegacyServer.

(** ** [backend/server.js]: the entry point without [connectDB]

    It starts the connection attempt, calls [app.listen] at once, and ends
    the process when the attempt fails. Its status routes report no
    database state. *)

Import Server.

Definition on_listening (p : Process) : Process :=
  say_all
    [Log ("🚀 Server running on port " +:+ show_port (PORT p));
     Log ("📊 Environment: " +:+ env_or "NODE_ENV" "development" p);
     Log "🌐 CORS enabled for:";
     Log "   - http://localhost:3000";
     Log "   - http://localhost:5173";
     Log "   - https://mern-final-project-atsienoclaire.vercel.app/";
     Log "   - https://mern-final-project-atsienoclaire-2.onrender.com"] p.

(** The environment check at the top of the file. *)
Definition environment_check (p : Process) : Process :=
  say_all
    [Log "🔧 Environment check:";
     Log ("   JWT_SECRET: " +:+
          (if env_set "JWT_SECRET" p then "✅ Set" else "❌ Missing"));
     Log ("   JWT_EXPIRE: " +:+
          (if env_set "JWT_EXPIRE" p
           then "✅ Set to: " +:+ default "" (env p !! "JWT_EXPIRE")
           else "❌ Missing"));
     Log ("   MONGODB_URI: " +:+
          (if env_set "MONGODB_URI" p then "✅ Set" else "❌ Missing"));
     Log ("   PORT: " +:+
          (if env_set "PORT" p
           then "✅ Set to: " +:+ default "" (env p !! "PORT")
           else "❌ Missing"))] p.

(** The file from [mongoose.connect] on: it starts the connection attempt,
    calls [app.listen] at once, and then the attempt settles. An exception
    thrown by [app.listen] is uncaught: Node ends the process with code 1. *)
Definition serve (w : World) (p : Process) : Process :=
  let p := set_readyState 2 p in
  match listen_failure w with
  | Some error => process_exit 1 p
  | None =>
      let p := on_listening (listen_on (PORT p) p) in
      match connect_outcome w with
      | inr _ =>
          say (Log "✅ MongoDB connected successfully") (set_readyState 1 p)
      | inl err =>
          process_exit 1
            (say (Error ("❌ MongoDB connection error: " +:+ error_name err +:+
                         ": " +:+ error_message err))
               (set_readyState 0 p))
      end
  end.

(** The file run from top to bottom by a router that accepts the path of
    [app.options('*', cors())] (line 39). *)
Definition main (w : World) (p : Process) : Process :=
  serve w (environment_check p).

(** The file run from top to bottom. [route_error] is what the router
    throws at [app.options('*', cors())], if it does: version 5 of the
    router refuses the path ['*'], version 4 takes it. The exception is
    uncaught, so Node prints it and ends the process with code 1 before
    [mongoose.connect] and [app.listen] are reached. *)
Definition load (route_error : option string) (w : World) (p : Process) : Process :=
  match route_error with
  | Some error => process_exit 1 (say (Error error) (environment_check p))
  | None => main w p
  end.

Record HealthBody : Type := {
  status : string;
  message : string;
  timestamp : string;
  environment : string
}.

Definition get_api_health (now : string) (p : Process) : Z * HealthBody :=
  (200, {| status := "OK"; message := "Server is running"; timestamp := now;
           environment := env_or "NODE_ENV" "development" p |}).

Definition request_health (now : string) (p : Process) : option (Z * HealthBody) :=
  match exit_code p, listening p with
  | None, Some _ => Some (get_api_health now p)
  | _, _ => None
  end.

End LegacyServer.

Module Client.

(** ** The rest of [frontend/src/utils/api.js]: the request interceptor,
    the success handler of the response interceptor, [handleApiError] and
    the progress callback of [uploadFile] *)

Import Api.

(** [s.toUpperCase()], on the ASCII letters an HTTP method is made of. *)
Definition upper_char (c : ascii) : ascii :=
  let code := N_of_ascii c in
  if ((97 <=? code) && (code <=? 122))%N then ascii_of_N (code - 32) else c.

Fixpoint toUpperCase (s : string) : string :=
  match s with
  | EmptyString => EmptyString
  | String c rest => String (upper_char c) (toUpperCase rest)
  end.

(** A string or [undefined] inside a template literal. *)
Definition interpolate (o : option string) : string :=
  match o with Some s => s | None => "undefined" end.

(** The request configuration axios passes to a request interceptor, with
    the properties the interceptor reads or writes. *)
Record InternalRequestConfig : Type := {
  url : option string;
  method : option string;
  headers : gmap string string;
  data : jsvalue
}.

Definition with_header (name value : string) (config : InternalRequestConfig)
  : InternalRequestConfig :=
  {| url := url config; method := method config;
     headers := <[name := value]> (headers config); data := data config |}.

(** The request interceptor (api.js, lines 19-29). *)
Definition requestFulfilled (config : InternalRequestConfig)
  : Js InternalRequestConfig :=
  let! token := localStorage_getItem "token" in
  let config :=
    if truthy_item token
    then with_header "Authorization" ("Bearer " +:+ interpolate token) config
    else config in
  console_log
    [LogString ("🚀 " +:+ interpolate (option_map toUpperCase (method config)) +:+
                " " +:+ interpolate (url config));
     if truthy (data config) then log_jsvalue (data config) else LogString ""] ;;
  ret config.

(** Its error handler (api.js, lines 30-33). *)
Definition requestRejected (error : thrown) : Js InternalRequestConfig :=
  console_error [LogString "❌ Request Error:"; LogThrown error] ;;
  throw error.

(** A response as the success handler receives it. *)
Record AxiosResponse : Type := {
  response_status : Z;
  response_data : jsvalue;
  response_config : InternalRequestConfig
}.

(** The success handler of the response interceptor (api.js, lines 38-42). *)
Definition responseFulfilled (response : AxiosResponse) : Js AxiosResponse :=
  console_log
    [LogString ("✅ " +:+
                interpolate (option_map toUpperCase (method (response_config response))) +:+
                " " +:+ interpolate (url (response_config response)) +:+
                " - Status: " +:+ pretty (response_status response))] ;;
  ret response.

(** *** [handleApiError] (api.js, lines 158-176) *)

(** [parts.join(separator)] on strings. *)
Fixpoint join (separator : string) (parts : list string) : string :=
  match parts with
  | [] => ""
  | [part] => part
  | part :: rest => part +:+ separator +:+ join separator rest
  end.

(** [String(v)] for a JSON value whose numbers are safe integers (larger
    numbers print rounded or in exponent form). Inside
    [Array.prototype.join], [null] elements give the empty string. *)
Fixpoint to_string (v : json) : string :=
  match v with
  | JNull => "null"
  | JBool true => "true"
  | JBool false => "false"
  | JNumber n => pretty n
  | JString s => s
  | JArray items =>
      join ","
        (List.map (fun item => match item with
                               | JNull => ""
                               | _ => to_string item
                               end) items)
  | JObject _ => "[object Object]"
  end.


Definition element_string (item : json) : string :=
  match item with
  | JNull => ""
  | _ => to_string item
  end.

(** [error.response?.data]. *)
Definition response_data_of (error : AxiosError) : jsvalue :=
  match response error with
  | Some r => Api.data r
  | None => None
  end.

(** The message [handleApiError] settles on: the server's message, else
    the server's list of errors joined, else the error's own message, else
    a fixed text. Calling [errors.join] on a value that is not an array
    throws. *)
Definition choose_message (error : AxiosError) : Js json :=
  let data := response_data_of error in
  if truthy (get_field "message" data) then
    ret (default JNull (get_field "message" data))
  else if truthy (get_field "errors" data) then
    match get_field "errors" data with
    | Some (JArray items) =>
        ret (JString (join ", " (List.map element_string items)))
    | _ => throw (TypeError "error.response.data.errors.join is not a function")
    end
  else if negb (String.eqb (message error) "") then ret (JString (message error))
  else ret (JString "An unexpected error occurred").

Definition handleApiError (error : AxiosError) (setError : option (json -> Js unit))
  : Js json :=
  let! errorMessage := choose_message error in
  console_error [LogString "API Error:"; LogValue errorMessage] ;;
  match setError with
  | Some set => set errorMessage
  | None => ret tt
  end ;;
  ret errorMessage.

(** A [setError] that records the message it is given in the trace. *)
Definition recording_setError (message : json) : Js unit :=
  console_log [LogString "setError"; LogValue message].

(** *** The progress callback of [uploadFile] (api.js, lines 144-151) *)

(** [Math.round(x)]: the integer nearest to [x], halves going up. *)
Definition Math_round (x : Q) : Z := Qfloor (x + (1 # 2))%Q.

(** [Math.round((loaded * 100) / total)], on the exact quotient. The
    source divides double-precision numbers; for byte counts with
    [0 <= loaded <= total < 2^46] the rounded quotient lies on the same side
    of every half-integer as the exact one, so both give the same
    percentage. *)
Definition percentCompleted (loaded total : Z) : Z :=
  Math_round (inject_Z (loaded * 100) / inject_Z total)%Q.

(** [onUploadProgress]: [total] is [None] when the event does not carry
    it. The caller's callback runs only when it was given and [total] is
    truthy. *)
Definition onUploadProgress (onProgress : option (Z -> Js unit))
    (loaded : Z) (total : option Z) : Js unit :=
  match onProgress, total with
  | Some report, Some t =>
      if negb (t =? 0) then report (percentCompleted loaded t) else ret tt
  | _, _ => ret tt
  end.

(** An [onProgress] that records the percentage it is given in the trace. *)
Definition recording_onProgress (percent : Z) : Js unit :=
  console_log [LogString "progress"; LogNumber percent].

(** What a call of [handleApiError] that settles on [message] adds to the
    trace: the console line and, when a [setError] was passed, its call. *)
Definition reported (message : json) (with_setError : bool) : list effect :=
  ConsoleError [LogString "API Error:"; LogValue message] ::
  (if with_setError
   then [ConsoleLog [LogString "setError"; LogValue message]]
   else []).

(** [handleApiError(error, setError)] and [handleApiError(error)] both
    return [message], after logging it and, in the first case, passing it
    to [setError] once. *)
Definition settles_on (error : AxiosError) (message : json) : Prop :=
  forall b : Browser,
    result_of (handleApiError error (Some recording_setError)) b = inr message /\
    new_effects (handleApiError error (Some recording_setError)) b
    = reported message true /\
    result_of (handleApiError error None) b = inr message /\
    new_effects (handleApiError error None) b = reported message false.


(** A 422 error whose payload maps fields to errors instead of listing
    them. *)
Definition keyed_validation_error : AxiosError :=
  {| config := Some {| Api.url := Some "/auth/register"; Api.method := Some "post" |};
     response :=
       Some {| status := 422;
               Api.data :=
                 Some (JObject [("errors",
                                 JObject [("email", JString "is required")])]) |};
     request := true;
     message := "Request failed with status code 422" |}.

(** A request that got no response. *)
Definition network_error : AxiosError :=
  {| config := Some {| Api.url := Some "/jobs"; Api.method := Some "get" |};
     response := None;
     request := true;
     message := "Network Error" |}.


(** A 500 error as axios raises it for [POST /applications]. *)
Definition server_error : AxiosError :=
  {| config := Some {| Api.url := Some "/applications"; Api.method := Some "post" |};
     response :=
       Some {| status := 500;
               Api.data := Some (JObject [("message", JString "Database unavailable")]) |};
     request := true;
     message := "Request failed with status code 500" |}.

(** *** Measures on traces *)

(** The time a run of [apiWithRetry] spends waiting, in milliseconds. *)
Definition total_wait (tr : list event) : Z := foldr Z.add 0 (delays tr).

(** Console output, as opposed to a write to storage, to the default
    headers or to the location, or a request. *)
Definition is_console (e : effect) : bool :=
  match e with
  | ConsoleLog _ | ConsoleError _ => true
  | _ => false
  end.

End Client.

Module Page.

(** ** [setAuth] with the failures of the platform

    [Api.setAuth] describes a call whose writes succeed on a user that is a
    JSON value. Here the user is any value a caller can pass,
    [JSON.stringify] treats it as ECMAScript prescribes, and
    [localStorage.setItem] throws when the storage area is full. *)

Import Api JsonText Client.

(** Values of JavaScript, as far as [JSON.stringify] tells them apart.
    A number is an integer, [NaN] or an infinity; a [Date] is given by the
    text [toISOString] returns, [None] for an invalid date. Arrays and
    objects are plain data: own enumerable properties that hold values,
    without accessors, without a [toJSON] method (that of [Date] apart)
    and without cycles. *)
Inductive jsany : Type :=
| JsUndefined
| JsFunction
| JsNull
| JsBool (b : bool)
| JsNumber (n : Z)
| JsNaN
| JsInfinity (negative : bool)
| JsBigInt (n : Z)
| JsString (s : string)
| JsDate (iso : option string)
| JsArray (items : list jsany)
| JsObject (fields : list (string * jsany)).

(** A JSON value as a JavaScript value. *)
Fixpoint embed (v : json) : jsany :=
  match v with
  | JNull => JsNull
  | JBool b => JsBool b
  | JNumber n => JsNumber n
  | JString s => JsString s
  | JArray items => JsArray (List.map embed items)
  | JObject fields =>
      JsObject (List.map (fun field => (fst field, embed (snd field))) fields)
  end.

(** The JSON value [JSON.stringify] writes for [v]: [inr None] where it
    writes nothing ([undefined], a function), [inl] where it throws a
    [TypeError] (a BigInt). Inside an array a value that writes nothing
    becomes [null]; inside an object its property is left out. [NaN] and
    the infinities become [null], a date its ISO text. *)
Fixpoint to_json (v : jsany) : string + option json :=
  match v with
  | JsUndefined | JsFunction => inr None
  | JsNull => inr (Some JNull)
  | JsBool b => inr (Some (JBool b))
  | JsNumber n => inr (Some (JNumber n))
  | JsNaN | JsInfinity _ => inr (Some JNull)
  | JsBigInt _ => inl "Do not know how to serialize a BigInt"
  | JsString s => inr (Some (JString s))
  | JsDate (Some iso) => inr (Some (JString iso))
  | JsDate None => inr (Some JNull)
  | JsArray items =>
      match
        (fix elements (l : list jsany) : string + list json :=
           match l with
           | [] => inr []
           | x :: xs =>
               match to_json x with
               | inl error => inl error
               | inr written =>
                   match elements xs with
                   | inl error => inl error
                   | inr rest => inr (default JNull written :: rest)
                   end
               end
           end) items
      with
      | inl error => inl error
      | inr elements => inr (Some (JArray elements))
      end
  | JsObject fields =>
      match
        (fix members (l : list (string * jsany)) : string + list (string * json) :=
           match l with
           | [] => inr []
           | (key, x) :: xs =>
               match to_json x with
               | inl error => inl error
               | inr written =>
                   match members xs with
                   | inl error => inl error
                   | inr rest =>
                       inr (match written with
                            | Some j => (key, j) :: rest
                            | None => rest
                            end)
                   end
               end
           end) fields
      with
      | inl error => inl error
      | inr members => inr (Some (JObject members))
      end
  end.

Fixpoint elements_to_json (l : list jsany) : string + list json :=
  match l with
  | [] => inr []
  | x :: xs =>
      match to_json x with
      | inl error => inl error
      | inr written =>
          match elements_to_json xs with
          | inl error => inl error
          | inr rest => inr (default JNull written :: rest)
          end
      end
  end.

Fixpoint members_to_json (l : list (string * jsany)) : string + list (string * json) :=
  match l with
  | [] => inr []
  | (key, x) :: xs =>
      match to_json x with
      | inl error => inl error
      | inr written =>
          match members_to_json xs with
          | inl error => inl error
          | inr rest =>
              inr (match written with
                   | Some j => (key, j) :: rest
                   | None => rest
                   end)
          end
      end
  end.

(** [JSON.stringify(value)]: the text, [None] for [undefined], or a
    thrown [TypeError]. *)
Definition JSON_stringify_any (value : jsany) : Js (option string) :=
  match to_json value with
  | inl error => throw (TypeError error)
  | inr None => ret None
  | inr (Some j) => ret (Some (stringify j))
  end.

(** What a storage area holds, counted in characters of keys and values. *)
Definition storage_size (area : gmap string string) : nat :=
  map_fold (fun key value total => String.length key + String.length value + total)%nat
    0%nat area.

(** [localStorage.setItem(key, value)] in a browser that grants the page
    [capacity] characters: the write happens when the area still fits
    afterwards; otherwise the area is left as it was and a
    [QuotaExceededError] is thrown. *)
Definition setItem (capacity : nat) (key value : string) : Js unit :=
  fun b =>
    if (storage_size (<[key := value]> (localStorage b)) <=? capacity)%nat
    then localStorage_setItem key value b
    else (inl (DOMException "QuotaExceededError"), b).

(** [setAuth] (api.js, lines 122-126). [setItem] turns its value into a
    string, so an [undefined] from [JSON.stringify] is stored as the text
    [undefined]. *)
Definition setAuth (capacity : nat) (token : string) (user : jsany) : Js unit :=
  setItem capacity "token" token ;;
  let! text := JSON_stringify_any user in
  setItem capacity "user" (interpolate text) ;;
  set_common_header "Authorization" ("Bearer " +:+ token).

(** [getCurrentUser] with the standard codec. *)
Definition getCurrentUser : Js json := Api.getCurrentUser (codec := text_codec).

(** The property stored under [key], if any. *)
Fixpoint property (key : string) (fields : list (string * jsany)) : option jsany :=
  match fields with
  | [] => None
  | (name, value) :: rest =>
      if String.eqb name key then Some value else property key rest
  end.

Definition is_undefined (v : jsany) : bool :=
  match v with
  | JsUndefined => true
  | _ => false
  end.

(** The properties that hold a value other than [undefined]. *)
Definition defined (fields : list (string * jsany)) : list (string * jsany) :=
  filter (fun field => negb (is_undefined (snd field))) fields.

(** Deep equality, in its most lenient reading: objects are compared
    whatever the order of their properties, a property that holds
    [undefined] counts as absent, [NaN] equals [NaN], two functions are
    taken to be equal. *)
Fixpoint deep_equal (a b : jsany) {struct a} : bool :=
  match a, b with
  | JsUndefined, JsUndefined => true
  | JsFunction, JsFunction => true
  | JsNull, JsNull => true
  | JsBool x, JsBool y => Bool.eqb x y
  | JsNumber x, JsNumber y => (x =? y)%Z
  | JsNaN, JsNaN => true
  | JsInfinity x, JsInfinity y => Bool.eqb x y
  | JsBigInt x, JsBigInt y => (x =? y)%Z
  | JsString x, JsString y => String.eqb x y
  | JsDate (Some x), JsDate (Some y) => String.eqb x y
  | JsDate None, JsDate None => true
  | JsArray xs, JsArray ys =>
      (fix pairwise (l : list jsany) (r : list jsany) : bool :=
         match l, r with
         | [], [] => true
         | x :: l', y :: r' => deep_equal x y && pairwise l' r'
         | _, _ => false
         end) xs ys
  | JsObject fields, JsObject others =>
      (length (defined fields) =? length (defined others))%nat &&
      (fix each (l : list (string * jsany)) : bool :=
         match l with
         | [] => true
         | (key, x) :: l' =>
             match x with
             | JsUndefined => true
             | _ =>
                 match property key (defined others) with
                 | Some y => deep_equal x y
                 | None => false
                 end
             end && each l'
         end) fields
  | _, _ => false
  end.


End Page.

Module ServerLog.

(** ** Observing a start of the server *)

Import Server.

(** The console lines written between [p] and [p']. *)
Definition new_lines (p p' : Process) : list console_line :=
  drop (length (console p)) (console p').

(** The first line of each remediation hint of [connectDB], and the line it
    ends every failure with. *)
Definition whitelist_hint : console_line :=
  Log "
💡 IP WHITELIST SOLUTION:".

Definition network_hint : console_line :=
  Log "
💡 NETWORK SOLUTION:".

Definition degraded_notice : console_line :=
  Log "🔄 Server will start without database connection. Some features may not work.".

(** An outside in which the database answers and the port can be bound. *)
Definition database_up (conn : MongoConnection) (clock : Z) : World :=
  {| connect_outcome := inr conn; listen_failure := None; clock_ms := clock |}.

(** An Atlas cluster that refuses the server's address. *)
Definition selection_error : MongoError :=
  {| error_name := "MongooseServerSelectionError";
     error_message := "Could not connect to any servers in your MongoDB Atlas cluster" |}.

(** The secret [configure] makes up when none is set. *)
Definition development_secret (w : World) : string :=
  "dev-secret-key-change-in-production-" +:+ pretty (clock_ms w).

(** The port the server is asked to listen on, by the environment it was
    started with. *)
Definition requested_port (environment : gmap string string) : port_value :=
  match environment !! "PORT" with
  | Some value => if String.eqb value "" then PortNumber 5000 else PortString value
  | None => PortNumber 5000
  end.

End ServerLog.

(** * The standard codec reads back what it writes *)

Module JsonTextFacts.
Import Api JsonText.

(** Induction on values that reaches the elements of arrays and the values
    of members. *)
Lemma json_nested_ind (P : json -> Prop) :
  P JNull ->
  (forall b, P (JBool b)) ->
  (forall n, P (JNumber n)) ->
  (forall s, P (JString s)) ->
  (forall items, Forall P items -> P (JArray items)) ->
  (forall fields, Forall (fun kv => P (snd kv)) fields -> P (JObject fields)) ->
  forall v, P v.
Proof.
  intros Hnull Hbool Hnum Hstr Harr Hobj.
  fix IH 1. intros [| b | n | s | items | fields].
  - exact Hnull.
  - apply Hbool.
  - apply Hnum.
  - apply Hstr.
  - apply Harr. induction items as [| x xs IHxs]; constructor; [apply IH | exact IHxs].
  - apply Hobj. induction fields as [| [key x] xs IHxs]; constructor;
      [apply IH | exact IHxs].
Qed.

(** *** Numbers *)

Lemma parse_uint_print_uint (u : uint) (k : string) :
  ends_number k = true ->
  parse_uint (print_uint u k) = (u, k).
Proof.
  intros Hk. induction u; simpl; rewrite ?IHu; try reflexivity.
  destruct k as [| c k']; [reflexivity |].
  simpl in *. destruct (digit_of c); [discriminate | reflexivity].
Qed.

Lemma uint_beq_refl (u : uint) : uint_beq u u = true.
Proof. induction u; simpl; auto. Qed.

Lemma unorm_fixed_not_nil (u : uint) : unorm u = u -> u <> Nil.
Proof. intros H ->. discriminate H. Qed.

(** The digits [Z.to_int] produces are plain. *)
Lemma to_int_plain (n : Z) :
  match Z.to_int n with
  | Pos u => unorm u = u
  | Neg u => unorm u = u
  end.
Proof.
  pose proof (DecimalZ.to_of (Z.to_int n)) as H.
  rewrite DecimalZ.of_to in H.
  destruct (Z.to_int n) as [u | u]; simpl in H.
  - congruence.
  - unfold unorm. destruct (nzhead u); congruence.
Qed.

Lemma to_int_not_nil (n : Z) :
  match Z.to_int n with
  | Pos u => u <> Nil
  | Neg u => u <> Nil
  end.
Proof.
  pose proof (to_int_plain n) as H.
  destruct (Z.to_int n); apply unorm_fixed_not_nil; exact H.
Qed.

Lemma plain_digits_fixed (u : uint) : unorm u = u -> plain_digits u = true.
Proof. intros H. unfold plain_digits. rewrite H. apply uint_beq_refl. Qed.

(** One step of the parser on text that starts with a digit. *)
Lemma parse_value_digit (fuel : nat) (c : ascii) (rest : string) (d : uint -> uint) :
  digit_of c = Some d ->
  parse_value (S fuel) (String c rest) =
  let (u, r) := parse_uint (String c rest) in
  if plain_digits u then Some (JNumber (Z.of_int (Pos u)), r) else None.
Proof.
  destruct c as [[] [] [] [] [] [] [] []]; simpl; intros H;
    try discriminate H; reflexivity.
Qed.

Lemma parse_value_minus (fuel : nat) (rest : string) :
  parse_value (S fuel) (String "-" rest) =
  let (u, r) := parse_uint rest in
  if plain_digits u then Some (JNumber (Z.of_int (Neg u)), r) else None.
Proof. reflexivity. Qed.

Lemma print_uint_head (u : uint) (k : string) :
  u <> Nil ->
  exists c d rest, print_uint u k = String c rest /\ digit_of c = Some d.
Proof.
  intros Hu. destruct u; [congruence | ..]; simpl; eauto.
Qed.

Lemma parse_value_print_Z (fuel : nat) (n : Z) (k : string) :
  ends_number k = true ->
  parse_value (S fuel) (print_Z n k) = Some (JNumber n, k).
Proof.
  intros Hk. unfold print_Z.
  pose proof (to_int_plain n) as Hplain.
  pose proof (to_int_not_nil n) as Hnil.
  pose proof (DecimalZ.of_to n) as Hback.
  destruct (Z.to_int n) as [u | u].
  - destruct (print_uint_head u k Hnil) as (c & d & rest & Htext & Hc).
    rewrite Htext, (parse_value_digit fuel c rest d Hc), <- Htext.
    rewrite (parse_uint_print_uint u k Hk), (plain_digits_fixed u Hplain), Hback.
    reflexivity.
  - rewrite parse_value_minus.
    rewrite (parse_uint_print_uint u k Hk), (plain_digits_fixed u Hplain), Hback.
    reflexivity.
Qed.

(** *** String literals *)

Lemma parse_chars_print_char (c : ascii) (k : string) :
  parse_chars (print_char c k) =
  match parse_chars k with
  | Some (str, r) => Some (String c str, r)
  | None => None
  end.
Proof. destruct c as [[] [] [] [] [] [] [] []]; reflexivity. Qed.

Lemma parse_chars_print_chars (s k : string) :
  parse_chars (print_chars s (String quote k)) = Some (s, k).
Proof.
  induction s as [| c s IH]; simpl.
  - reflexivity.
  - rewrite parse_chars_print_char, IH. reflexivity.
Qed.

(** *** The first character of a value *)

Lemma print_value_start (v : json) (k : string) :
  exists c rest, print_value v k = String c rest /\ value_start c = true.
Proof.
  destruct v as [| [] | n | s | [| x xs] | [| [key x] xs]];
    try (eexists _, _; split; reflexivity).
  simpl. unfold print_Z. pose proof (to_int_not_nil n) as Hnil.
  destruct (Z.to_int n) as [u | u].
  - destruct (print_uint_head u k Hnil) as (c & d & rest & Htext & Hc).
    exists c, rest. split; [exact Htext |].
    revert Hc. destruct c as [[] [] [] [] [] [] [] []]; simpl;
      intros Hc; try discriminate Hc; reflexivity.
  - eexists _, _; split; reflexivity.
Qed.

Lemma value_start_not_closing (c : ascii) :
  value_start c = true ->
  is_whitespace c = false /\ Ascii.eqb "]" c = false /\ Ascii.eqb "}" c = false.
Proof.
  destruct c as [[] [] [] [] [] [] [] []]; simpl; intros H;
    try discriminate H; repeat split.
Qed.

Lemma closes_print_value (v : json) (k : string) :
  closes "]" (print_value v k) = None /\ closes "}" (print_value v k) = None.
Proof.
  destruct (print_value_start v k) as (c & rest & -> & Hc).
  destruct (value_start_not_closing c Hc) as (Hws & Hbracket & Hbrace).
  unfold closes. cbn [skip_whitespace]. rewrite Hws, Hbracket, Hbrace.
  split; reflexivity.
Qed.

Lemma stringify_not_empty (v : json) : stringify v <> EmptyString.
Proof.
  unfold stringify.
  destruct (print_value_start v EmptyString) as (c & rest & -> & _).
  discriminate.
Qed.

Lemma ends_number_print_elements (xs : list json) (k : string) :
  ends_number (print_elements k xs) = true.
Proof. destruct xs; reflexivity. Qed.

Lemma ends_number_print_members (xs : list (string * json)) (k : string) :
  ends_number (print_members k xs) = true.
Proof. destruct xs as [| [key x] xs]; reflexivity. Qed.

(** *** One step of the parser on arrays, objects and their tails *)

Lemma parse_value_array (fuel : nat) (rest : string) :
  parse_value (S fuel) (String "[" rest) =
  match closes "]" rest with
  | Some r => Some (JArray [], r)
  | None =>
      match parse_value fuel rest with
      | Some (v, r) =>
          match parse_elements fuel r with
          | Some (vs, r') => Some (JArray (v :: vs), r')
          | None => None
          end
      | None => None
      end
  end.
Proof. reflexivity. Qed.

Lemma parse_value_object (fuel : nat) (rest : string) :
  parse_value (S fuel) (String "{" rest) =
  match closes "}" rest with
  | Some r => Some (JObject [], r)
  | None =>
      match parse_member (parse_value fuel) rest with
      | Some (kv, r) =>
          match parse_members fuel r with
          | Some (kvs, r') => Some (JObject (kv :: kvs), r')
          | None => None
          end
      | None => None
      end
  end.
Proof. reflexivity. Qed.

Lemma parse_elements_comma (fuel : nat) (rest : string) :
  parse_elements (S fuel) (String "," rest) =
  match parse_value fuel rest with
  | Some (v, r') =>
      match parse_elements fuel r' with
      | Some (vs, r'') => Some (v :: vs, r'')
      | None => None
      end
  | None => None
  end.
Proof. reflexivity. Qed.

Lemma parse_members_comma (fuel : nat) (rest : string) :
  parse_members (S fuel) (String "," rest) =
  match parse_member (parse_value fuel) rest with
  | Some (kv, r') =>
      match parse_members fuel r' with
      | Some (kvs, r'') => Some (kv :: kvs, r'')
      | None => None
      end
  | None => None
  end.
Proof. reflexivity. Qed.

Lemma parse_member_print (parse_v : string -> option (json * string))
    (key : string) (x : json) (text k : string) :
  parse_v text = Some (x, k) ->
  parse_member parse_v (print_string key (String ":" text)) = Some ((key, x), k).
Proof.
  intros Hv. unfold parse_member, print_string. simpl.
  rewrite parse_chars_print_chars. simpl. rewrite Hv. reflexivity.
Qed.

(** *** Reading back what was written *)

Lemma parse_elements_print_elements (xs : list json) :
  Forall reads_back xs ->
  forall (fuel : nat) (k : string),
    (size_elements xs <= fuel)%nat -> ends_number k = true ->
    parse_elements fuel (print_elements k xs) = Some (xs, k).
Proof.
  induction 1 as [| y ys Hy _ IH]; intros fuel k Hfuel Hk.
  - destruct fuel; [simpl in Hfuel; lia | reflexivity].
  - simpl in Hfuel. destruct fuel as [| fuel]; [lia |].
    cbn [print_elements]. rewrite parse_elements_comma.
    rewrite Hy by (lia || apply ends_number_print_elements).
    rewrite IH by (lia || assumption). reflexivity.
Qed.

Lemma parse_members_print_members (xs : list (string * json)) :
  Forall (fun kv => reads_back (snd kv)) xs ->
  forall (fuel : nat) (k : string),
    (size_members xs <= fuel)%nat -> ends_number k = true ->
    parse_members fuel (print_members k xs) = Some (xs, k).
Proof.
  induction 1 as [| [key y] ys Hy _ IH]; intros fuel k Hfuel Hk.
  - destruct fuel; [simpl in Hfuel; lia | reflexivity].
  - simpl in Hfuel, Hy. destruct fuel as [| fuel]; [lia |].
    cbn [print_members]. rewrite parse_members_comma.
    rewrite (parse_member_print _ key y _ (print_members k ys)).
    + rewrite IH by (lia || assumption). reflexivity.
    + apply Hy; [lia | apply ends_number_print_members].
Qed.

Lemma size_positive (v : json) : (1 <= size v)%nat.
Proof.
  destruct v as [| b | n | s | [| x xs] | [| [key x] xs]]; simpl; lia.
Qed.

Lemma parse_value_print_value (v : json) : reads_back v.
Proof.
  induction v as [| b | n | s | items IH | fields IH] using json_nested_ind;
    intros fuel k Hfuel Hk;
    match type of Hfuel with (size ?v <= _)%nat =>
      pose proof (size_positive v) end;
    (destruct fuel as [| fuel]; [lia |]).
  - reflexivity.
  - destruct b; reflexivity.
  - apply parse_value_print_Z. exact Hk.
  - cbn [print_value]. unfold print_string. simpl.
    rewrite parse_chars_print_chars. reflexivity.
  - destruct items as [| x xs]; [reflexivity |].
    inversion IH as [| ? ? Hx Hxs]; subst.
    change (print_value (JArray (x :: xs)) k)
      with (String "[" (print_value x (print_elements k xs))).
    change (size (JArray (x :: xs))) with (S (size x + size_elements xs)) in Hfuel.
    rewrite parse_value_array.
    destruct (closes_print_value x (print_elements k xs)) as [-> _].
    rewrite Hx by (lia || apply ends_number_print_elements).
    rewrite (parse_elements_print_elements xs Hxs) by (lia || assumption).
    reflexivity.
  - destruct fields as [| [key x] xs]; [reflexivity |].
    inversion IH as [| ? ? Hx Hxs]; subst. simpl in Hx.
    change (print_value (JObject ((key, x) :: xs)) k)
      with (String "{" (print_string key
                          (String ":" (print_value x (print_members k xs))))).
    change (size (JObject ((key, x) :: xs)))
      with (S (size x + size_members xs)) in Hfuel.
    rewrite parse_value_object.
    replace (closes "}" (print_string key
               (String ":" (print_value x (print_members k xs)))))
      with (@None string) by reflexivity.
    rewrite (parse_member_print _ key x _ (print_members k xs)).
    + rewrite (parse_members_print_members xs Hxs) by (lia || assumption).
      reflexivity.
    + apply Hx; [lia | apply ends_number_print_members].
Qed.

(** *** The fuel [parse] provides is enough *)

Lemma length_print_uint (u : uint) (k : string) :
  (String.length k <= String.length (print_uint u k))%nat.
Proof. induction u; simpl; lia. Qed.

Lemma length_print_Z (n : Z) (k : string) :
  (S (String.length k) <= String.length (print_Z n k))%nat.
Proof.
  unfold print_Z. pose proof (to_int_not_nil n) as Hnil.
  destruct (Z.to_int n) as [u | u].
  - destruct u; [congruence | ..]; simpl;
      match goal with |- context [print_uint ?u' k] =>
        pose proof (length_print_uint u' k) end; lia.
  - simpl. pose proof (length_print_uint u k). lia.
Qed.

Lemma length_print_char (c : ascii) (k : string) :
  (S (String.length k) <= String.length (print_char c k))%nat.
Proof. destruct c as [[] [] [] [] [] [] [] []]; simpl; lia. Qed.

Lemma length_print_chars (s k : string) :
  (String.length k <= String.length (print_chars s k))%nat.
Proof.
  induction s as [| c s IH]; simpl; [lia |].
  pose proof (length_print_char c (print_chars s k)). lia.
Qed.

Lemma length_print_string (s k : string) :
  (S (S (String.length k)) <= String.length (print_string s k))%nat.
Proof.
  unfold print_string. simpl.
  pose proof (length_print_chars s (String quote k)). simpl in *. lia.
Qed.

Lemma size_elements_fits (xs : list json) (k : string) :
  Forall fits xs ->
  (size_elements xs + String.length k
   <= String.length (print_elements k xs))%nat.
Proof.
  induction 1 as [| y ys Hy _ IH]; simpl; [lia |].
  specialize (Hy (print_elements k ys)). lia.
Qed.

Lemma size_members_fits (xs : list (string * json)) (k : string) :
  Forall (fun kv => fits (snd kv)) xs ->
  (size_members xs + String.length k
   <= String.length (print_members k xs))%nat.
Proof.
  induction 1 as [| [key y] ys Hy _ IH]; simpl; [lia |].
  simpl in Hy. specialize (Hy (print_members k ys)).
  pose proof (length_print_string key
                (String ":" (print_value y (print_members k ys)))) as Hkey.
  simpl in Hkey. lia.
Qed.

Lemma size_fits (v : json) : fits v.
Proof.
  induction v as [| b | n | s | items IH | fields IH] using json_nested_ind;
    intros k.
  - simpl. lia.
  - destruct b; simpl; lia.
  - simpl. pose proof (length_print_Z n k). lia.
  - pose proof (length_print_string s k). cbn [print_value size]. lia.
  - destruct items as [| x xs]; [simpl; lia |].
    inversion IH as [| ? ? Hx Hxs]; subst.
    change (print_value (JArray (x :: xs)) k)
      with (String "[" (print_value x (print_elements k xs))).
    change (size (JArray (x :: xs))) with (S (size x + size_elements xs)).
    specialize (Hx (print_elements k xs)).
    pose proof (size_elements_fits xs k Hxs). cbn [String.length]. lia.
  - destruct fields as [| [key x] xs]; [simpl; lia |].
    inversion IH as [| ? ? Hx Hxs]; subst. simpl in Hx.
    change (print_value (JObject ((key, x) :: xs)) k)
      with (String "{" (print_string key
                          (String ":" (print_value x (print_members k xs))))).
    change (size (JObject ((key, x) :: xs)))
      with (S (size x + size_members xs)).
    specialize (Hx (print_members k xs)).
    pose proof (size_members_fits xs k Hxs).
    pose proof (length_print_string key
                  (String ":" (print_value x (print_members k xs)))) as Hkey.
    cbn [String.length] in *. lia.
Qed.

(** Parsing the text of a value gives the value back. *)
Theorem parse_stringify_text (v : json) : parse (stringify v) = Some v.
Proof.
  unfold parse, stringify.
  rewrite parse_value_print_value; [reflexivity | | reflexivity].
  pose proof (size_fits v EmptyString). lia.
Qed.

Example parse_sample_user : parse (stringify sample_user) = Some sample_user.
Proof. vm_compute. reflexivity. Qed.

Example parse_spaced_array :
  parse " [1, -20 , null ] " = Some (JArray [JNumber 1; JNumber (-20); JNull]).
Proof. vm_compute. reflexivity. Qed.

Example parse_cut_short : parse "{oops" = None.
Proof. reflexivity. Qed.

Example parse_leading_zero : parse "01" = None.
Proof. reflexivity. Qed.

Example parse_trailing_comma : parse "[1,]" = None.
Proof. reflexivity. Qed.

Example parse_empty_text : parse "" = None.
Proof. reflexivity. Qed.

#[export] Instance text_round_trip : JsonRoundTrip text_codec.
Proof.
  split.
  - exact parse_stringify_text.
  - exact stringify_not_empty.
Qed.

End JsonTextFacts.

(** * Properties of the retry helper *)

Module RetryFacts.
Import Api.

Section Loop.
Context {World Value Err : Type}.
Variable apiCall : World -> (Err + Value) * World.
Variables maxRetries delay : Z.

Lemma retry_loop_exit (fuel : nat) (attempt : Z) (w : World) (tr : list event) :
  maxRetries < attempt ->
  retry_loop apiCall maxRetries delay fuel attempt w tr
  = Some (RetryRun (Resolved None) w tr).
Proof.
  intros Hgt. destruct fuel; simpl;
    destruct (Z.leb_spec attempt maxRetries); (reflexivity || lia).
Qed.

Lemma retry_loop_fulfilled (fuel : nat) (attempt : Z) (w w' : World)
    (value : Value) (tr : list event) :
  attempt <= maxRetries ->
  apiCall w = (inr value, w') ->
  retry_loop apiCall maxRetries delay (S fuel) attempt w tr
  = Some (RetryRun (Resolved (Some value)) w' (tr ++ [Invoked])).
Proof.
  intros Hle Hcall. simpl. rewrite Hcall.
  destruct (Z.leb_spec attempt maxRetries); (reflexivity || lia).
Qed.

Lemma retry_loop_last_failure (fuel : nat) (w w' : World) (error : Err)
    (tr : list event) :
  apiCall w = (inl error, w') ->
  retry_loop apiCall maxRetries delay (S fuel) maxRetries w tr
  = Some (RetryRun (Rejected error) w' (tr ++ [Invoked])).
Proof.
  intros Hcall. simpl. rewrite Hcall, Z.leb_refl, Z.eqb_refl. reflexivity.
Qed.

Lemma retry_loop_retry (fuel : nat) (attempt : Z) (w w' : World) (error : Err)
    (tr : list event) :
  attempt < maxRetries ->
  apiCall w = (inl error, w') ->
  retry_loop apiCall maxRetries delay (S fuel) attempt w tr
  = retry_loop apiCall maxRetries delay fuel (attempt + 1) w'
      (tr ++ [Invoked; Waited (delay * attempt); Logged (retry_message attempt)]).
Proof.
  intros Hlt Hcall. simpl. rewrite Hcall.
  destruct (Z.leb_spec attempt maxRetries); [| lia].
  destruct (Z.eqb_spec attempt maxRetries); [lia | reflexivity].
Qed.

(** The loop never runs out of fuel when it is given one unit for each value
    of [attempt] left up to [maxRetries]. *)
Lemma retry_loop_total (fuel : nat) :
  forall (attempt : Z) (w : World) (tr : list event),
    (Z.to_nat (maxRetries + 1 - attempt) <= fuel)%nat ->
    is_Some (retry_loop apiCall maxRetries delay fuel attempt w tr).
Proof.
  induction fuel as [| fuel IH]; intros attempt w tr Hfuel.
  - rewrite retry_loop_exit by lia. eauto.
  - destruct (Z.lt_ge_cases maxRetries attempt) as [Hgt | Hle].
    { rewrite retry_loop_exit by lia. eauto. }
    destruct (apiCall w) as [[error | value] w'] eqn:Hcall.
    + destruct (Z.eq_dec attempt maxRetries) as [-> | Hne].
      * erewrite retry_loop_last_failure by eassumption. eauto.
      * erewrite retry_loop_retry by (eassumption || lia). apply IH. lia.
    + erewrite retry_loop_fulfilled by (eassumption || lia). eauto.
Qed.

Lemma world_after_shift (n : nat) (w : World) :
  world_after apiCall n (snd (apiCall w)) = world_after apiCall (S n) w.
Proof.
  induction n as [| n IH]; simpl; [reflexivity |].
  rewrite IH. reflexivity.
Qed.

(** [count] failures in a row take the loop [count] attempts further, each
    followed by its wait and log line. *)
Lemma retry_loop_backoff (count : nat) :
  forall (fuel : nat) (attempt : Z) (w : World) (tr : list event),
    attempt + Z.of_nat count <= maxRetries ->
    (forall i, (i < count)%nat -> exists error, nth_result apiCall i w = inl error) ->
    retry_loop apiCall maxRetries delay (count + fuel) attempt w tr
    = retry_loop apiCall maxRetries delay fuel (attempt + Z.of_nat count)
        (world_after apiCall count w) (tr ++ backoff delay attempt count).
Proof.
  induction count as [| count IH]; intros fuel attempt w tr Hbound Hfail.
  - simpl. rewrite Z.add_0_r, app_nil_r. reflexivity.
  - destruct (Hfail 0%nat ltac:(lia)) as [error Herror].
    unfold nth_result in Herror. simpl in Herror.
    change (S count + fuel)%nat with (S (count + fuel)).
    rewrite (retry_loop_retry (count + fuel) attempt w (snd (apiCall w)) error tr)
      by (lia || (apply injective_projections; simpl; auto)).
    rewrite IH.
    + rewrite world_after_shift, <- app_assoc.
      replace (attempt + 1 + Z.of_nat count) with (attempt + Z.of_nat (S count)) by lia.
      reflexivity.
    + lia.
    + intros i Hi. destruct (Hfail (S i) ltac:(lia)) as [error' Herror'].
      exists error'. unfold nth_result in *. rewrite world_after_shift. exact Herror'.
Qed.

Lemma invocations_app (tr1 tr2 : list event) :
  invocations (tr1 ++ tr2) = (invocations tr1 + invocations tr2)%nat.
Proof. unfold invocations. rewrite List.filter_app, length_app. reflexivity. Qed.

Lemma delays_app (tr1 tr2 : list event) :
  delays (tr1 ++ tr2) = delays tr1 ++ delays tr2.
Proof.
  induction tr1 as [| [| ms | line] tr1 IH]; simpl; rewrite ?IH; reflexivity.
Qed.

Lemma invocations_backoff (from : Z) (count : nat) :
  invocations (backoff delay from count) = count.
Proof.
  revert from. induction count as [| count IH]; intros from; [reflexivity |].
  cbn [backoff]. rewrite invocations_app, IH. reflexivity.
Qed.

(** Linear backoff: wait number [i] lasts [delay] times [i]. *)
Lemma delays_backoff (from : Z) (count : nat) :
  delays (backoff delay from count)
  = List.map (fun i => delay * (from + Z.of_nat i)) (seq 0 count).
Proof.
  revert from. induction count as [| count IH]; intros from; [reflexivity |].
  cbn [backoff]. rewrite delays_app, IH. simpl. rewrite Z.add_0_r. f_equal.
  rewrite <- seq_shift, List.map_map.
  apply List.map_ext. intros i. f_equal. lia.
Qed.

End Loop.

(** [apiWithRetry] settles for every call, bound and delay. *)
Lemma apiWithRetry_total {World Value Err : Type}
    (apiCall : World -> (Err + Value) * World) (maxRetries delay : Z) (w : World) :
  is_Some (apiWithRetry apiCall maxRetries delay w).
Proof. apply retry_loop_total. lia. Qed.

(** The helper in general: when the first [failures] invocations fail and
    the next one succeeds within the bound, the helper resolves with its
    value after [failures + 1] invocations, having waited [delay], twice
    [delay], and so on up to [failures] times [delay]. *)
Lemma apiWithRetry_eventual_success {World Value Err : Type}
    (apiCall : World -> (Err + Value) * World) (maxRetries delay : Z) (w : World)
    (failures : nat) (value : Value) :
  Z.of_nat failures < maxRetries ->
  (forall i, (i < failures)%nat -> exists error, nth_result apiCall i w = inl error) ->
  nth_result apiCall failures w = inr value ->
  exists run,
    apiWithRetry apiCall maxRetries delay w = Some run /\
    outcome run = Resolved (Some value) /\
    final_world run = world_after apiCall (S failures) w /\
    invocations (trace run) = S failures /\
    delays (trace run)
    = List.map (fun i => delay * (1 + Z.of_nat i)) (seq 0 failures).
Proof.
  intros Hbound Hfail Hsuccess. unfold apiWithRetry.
  replace (Z.to_nat maxRetries)
    with (failures + S (Z.to_nat maxRetries - S failures))%nat by lia.
  rewrite retry_loop_backoff by (lia || assumption).
  erewrite retry_loop_fulfilled;
    [| lia | apply injective_projections; simpl; [exact Hsuccess | reflexivity]].
  eexists. split; [reflexivity |]. simpl.
  repeat split.
  - rewrite invocations_app, invocations_backoff. unfold invocations. simpl. lia.
  - rewrite delays_app, delays_backoff. simpl. apply app_nil_r.
Qed.

(** When every invocation up to the bound fails, the helper rejects with the
    error of the last one after exactly [maxRetries] invocations, and it
    does not wait after the last. *)
Lemma apiWithRetry_exhausted {World Value Err : Type}
    (apiCall : World -> (Err + Value) * World) (maxRetries delay : Z) (w : World)
    (last : Err) :
  1 <= maxRetries ->
  (forall i, (i < Z.to_nat maxRetries)%nat ->
     exists error, nth_result apiCall i w = inl error) ->
  nth_result apiCall (Z.to_nat maxRetries - 1) w = inl last ->
  exists run,
    apiWithRetry apiCall maxRetries delay w = Some run /\
    outcome run = Rejected last /\
    invocations (trace run) = Z.to_nat maxRetries /\
    delays (trace run)
    = List.map (fun i => delay * (1 + Z.of_nat i)) (seq 0 (Z.to_nat maxRetries - 1)).
Proof.
  intros Hbound Hfail Hlast. unfold apiWithRetry.
  remember (Z.to_nat maxRetries) as n eqn:Hn.
  destruct n as [| k]; [lia |].
  replace (S k - 1)%nat with k in * by lia.
  pose proof (retry_loop_backoff apiCall maxRetries delay k 1%nat 1 w []
                ltac:(lia) ltac:(intros i Hi; apply Hfail; lia)) as Hloop.
  replace (k + 1)%nat with (S k) in Hloop by lia.
  rewrite Hloop.
  replace (1 + Z.of_nat k) with maxRetries by lia.
  erewrite retry_loop_last_failure;
    [| apply injective_projections; simpl; [exact Hlast | reflexivity]].
  eexists. split; [reflexivity |]. simpl.
  repeat split.
  - rewrite invocations_app, invocations_backoff. unfold invocations. simpl. lia.
  - rewrite delays_app, delays_backoff. simpl. apply app_nil_r.
Qed.

(** Three attempts, the first two failing: two waits of [delay] and
    [2 * delay], then whatever the third invocation does. *)
Lemma apiWithRetry_two_failures {World Value Err : Type}
    (apiCall : World -> (Err + Value) * World) (delay : Z)
    (w0 w1 w2 : World) (e1 e2 : Err) :
  apiCall w0 = (inl e1, w1) ->
  apiCall w1 = (inl e2, w2) ->
  apiWithRetry apiCall 3 delay w0
  = retry_loop apiCall 3 delay 1 3 w2
      [Invoked; Waited (delay * 1); Logged (retry_message 1);
       Invoked; Waited (delay * 2); Logged (retry_message 2)].
Proof.
  intros H0 H1. unfold apiWithRetry.
  change (Z.to_nat 3) with 3%nat.
  erewrite retry_loop_retry by (eassumption || lia).
  erewrite retry_loop_retry by (eassumption || lia).
  reflexivity.
Qed.

Example flaky_first_attempt :
  apiWithRetry (flaky 0) 3 100 0%nat
  = Some (RetryRun (Resolved (Some 1%nat)) 1%nat [Invoked]).
Proof. reflexivity. Qed.

Example hopeless_single_attempt :
  apiWithRetry hopeless 1 100 0%nat
  = Some (RetryRun (Rejected "failure 1") 1%nat [Invoked]).
Proof. reflexivity. Qed.

(** C2. When the wrapped call fails on its first two invocations and
    succeeds on the third, [apiWithRetry(apiCall, 3, 100)] resolves with the
    value of the third invocation; the call is invoked exactly three times;
    the helper waits exactly twice, 100 ms and then 200 ms. *)
Theorem apiWithRetry_succeeds_on_third_attempt {World Value Err : Type}
    (apiCall : World -> (Err + Value) * World)
    (w0 w1 w2 w3 : World) (e1 e2 : Err) (value : Value) :
  apiCall w0 = (inl e1, w1) ->
  apiCall w1 = (inl e2, w2) ->
  apiCall w2 = (inr value, w3) ->
  exists run,
    apiWithRetry apiCall 3 100 w0 = Some run /\
    outcome run = Resolved (Some value) /\
    final_world run = w3 /\
    invocations (trace run) = 3%nat /\
    delays (trace run) = [100; 200] /\
    trace run = [Invoked; Waited 100; Logged "🔄 Retrying API call (attempt 2)...";
                 Invoked; Waited 200; Logged "🔄 Retrying API call (attempt 3)...";
                 Invoked].
Proof.
  intros H0 H1 H2.
  eexists. split.
  - rewrite (apiWithRetry_two_failures _ _ _ _ _ _ _ H0 H1).
    apply retry_loop_fulfilled; [lia | exact H2].
  - repeat split.
Qed.

(** A call that fails twice and then succeeds, run through the helper. *)
Lemma apiWithRetry_succeeds_on_third_attempt_witness :
  exists run,
    apiWithRetry (flaky 2) 3 100 0%nat = Some run /\
    outcome run = Resolved (Some 3%nat) /\
    final_world run = 3%nat /\
    invocations (trace run) = 3%nat /\
    delays (trace run) = [100; 200] /\
    trace run = [Invoked; Waited 100; Logged "🔄 Retrying API call (attempt 2)...";
                 Invoked; Waited 200; Logged "🔄 Retrying API call (attempt 3)...";
                 Invoked].
Proof.
  apply (apiWithRetry_succeeds_on_third_attempt (flaky 2)
           0%nat 1%nat 2%nat 3%nat "failure 1" "failure 2" 3%nat);
    reflexivity.
Defined.

(** A call that always fails settles its first three invocations with
    errors. *)
Lemma always_fails_three {World Value Err : Type}
    (apiCall : World -> (Err + Value) * World) (w0 : World) :
  always_fails apiCall ->
  exists e1 e2 e3,
    apiCall w0 = (inl e1, world_after apiCall 1 w0) /\
    apiCall (world_after apiCall 1 w0) = (inl e2, world_after apiCall 2 w0) /\
    apiCall (world_after apiCall 2 w0) = (inl e3, world_after apiCall 3 w0).
Proof.
  intros Hfail.
  destruct (Hfail w0) as [e1 H1].
  destruct (Hfail (world_after apiCall 1 w0)) as [e2 H2].
  destruct (Hfail (world_after apiCall 2 w0)) as [e3 H3].
  exists e1, e2, e3. simpl in *.
  repeat split; apply injective_projections; simpl; assumption || reflexivity.
Qed.

(** C3. When the wrapped call fails on every invocation,
    [apiWithRetry(apiCall, 3, 100)] rejects with the error of the third
    invocation, and the call is invoked exactly three times: the trace ends
    with the third invocation. *)
Theorem apiWithRetry_rejects_with_third_error {World Value Err : Type}
    (apiCall : World -> (Err + Value) * World) (w0 : World) :
  always_fails apiCall ->
  exists run e3,
    nth_result apiCall 2 w0 = inl e3 /\
    apiWithRetry apiCall 3 100 w0 = Some run /\
    outcome run = Rejected e3 /\
    final_world run = world_after apiCall 3 w0 /\
    invocations (trace run) = 3%nat /\
    trace run = [Invoked; Waited 100; Logged "🔄 Retrying API call (attempt 2)...";
                 Invoked; Waited 200; Logged "🔄 Retrying API call (attempt 3)...";
                 Invoked].
Proof.
  intros Hfail.
  destruct (always_fails_three apiCall w0 Hfail) as (e1 & e2 & e3 & H1 & H2 & H3).
  eexists. exists e3. split; [| split].
  - unfold nth_result. rewrite H3. reflexivity.
  - rewrite (apiWithRetry_two_failures _ _ _ _ _ _ _ H1 H2).
    apply retry_loop_last_failure. exact H3.
  - repeat split.
Qed.

Lemma hopeless_always_fails : always_fails hopeless.
Proof. intros n. eexists. reflexivity. Qed.

(** A call that fails every time, run through the helper: the rejection
    carries the error of the third invocation. *)
Lemma apiWithRetry_rejects_with_third_error_witness :
  exists run e3,
    nth_result hopeless 2 0%nat = inl e3 /\
    apiWithRetry hopeless 3 100 0%nat = Some run /\
    outcome run = Rejected e3 /\
    final_world run = world_after hopeless 3 0%nat /\
    invocations (trace run) = 3%nat /\
    trace run = [Invoked; Waited 100; Logged "🔄 Retrying API call (attempt 2)...";
                 Invoked; Waited 200; Logged "🔄 Retrying API call (attempt 3)...";
                 Invoked].
Proof.
  apply (apiWithRetry_rejects_with_third_error hopeless 0%nat).
  intros n. exists ("failure " +:+ pretty (S n)). reflexivity.
Defined.

(** C10. With [maxRetries] equal to 0, or any integer below 1, the loop body
    never runs: [apiWithRetry] resolves with [undefined], the wrapped call is
    never invoked, nothing is waited for or logged, and the world is left as
    it was. *)
Theorem apiWithRetry_without_attempts {World Value Err : Type}
    (apiCall : World -> (Err + Value) * World) (maxRetries delay : Z) (w : World) :
  maxRetries < 1 ->
  exists run,
    apiWithRetry apiCall maxRetries delay w = Some run /\
    outcome run = Resolved None /\
    invocations (trace run) = 0%nat /\
    trace run = [] /\
    final_world run = w.
Proof.
  intros Hlt. eexists. split.
  - apply retry_loop_exit. lia.
  - repeat split.
Qed.

Lemma apiWithRetry_without_attempts_witness :
  0 < 1 /\
  exists run,
    apiWithRetry (flaky 0) 0 1000 0%nat = Some run /\
    outcome run = Resolved None /\
    invocations (trace run) = 0%nat /\
    trace run = [] /\
    final_world run = 0%nat.
Proof.
  split; [lia |].
  apply (apiWithRetry_without_attempts (flaky 0) 0 1000 0%nat). lia.
Defined.

End RetryFacts.

(** * Properties of the client's interceptor and auth-state helpers *)

Module ApiFacts.
Import Api.

(** [includes] on the paths the login redirect meets. *)
Example includes_login_page : includes "/login" "/login" = true.
Proof. reflexivity. Qed.

Example includes_nested_login : includes "/login" "/auth/login/reset" = true.
Proof. reflexivity. Qed.

Example includes_dashboard : includes "/login" "/dashboard" = false.
Proof. reflexivity. Qed.

Example includes_cut_short : includes "/login" "/logi" = false.
Proof. reflexivity. Qed.

Lemma new_effects_spec {A : Type} (m : Js A) (b : Browser) (added : list effect) :
  effects (state_after m b) = effects b ++ added ->
  new_effects m b = added.
Proof. intros H. unfold new_effects. rewrite H. apply drop_app_length. Qed.

(** What the 401 branch does to the browser. *)
Lemma on_unauthorized_run (b : Browser) :
  on_unauthorized b =
  (inr tt,
   {| localStorage := delete "user" (delete "token" (localStorage b));
      common_headers := delete "Authorization" (common_headers b);
      pathname := pathname b;
      effects := effects b ++
                 [StorageRemove "token"; StorageRemove "user";
                  HeaderDelete "Authorization"] ++
                 (if includes "/login" (pathname b) then []
                  else [Navigate "/login"]) |}).
Proof.
  unfold on_unauthorized, bind, localStorage_removeItem, delete_common_header,
    location_pathname, set_location_href, ret, perform. simpl.
  destruct (includes "/login" (pathname b)); simpl;
    rewrite <- ?app_assoc; reflexivity.
Qed.

Lemma responseRejected_unauthorized_run (error : AxiosError) (b : Browser) :
  is_unauthorized error ->
  responseRejected error b =
  (inl (ThrownError error),
   {| localStorage := delete "user" (delete "token" (localStorage b));
      common_headers := delete "Authorization" (common_headers b);
      pathname := pathname b;
      effects := effects b ++
                 [ConsoleError [LogString "❌ API Error:"; api_error_summary error];
                  StorageRemove "token"; StorageRemove "user";
                  HeaderDelete "Authorization"] ++
                 (if includes "/login" (pathname b) then []
                  else [Navigate "/login"]) |}).
Proof.
  intros (r & Hr & Hstatus).
  unfold responseRejected. rewrite Hr, Hstatus. simpl.
  unfold bind at 1. unfold console_error at 1.
  unfold bind. rewrite on_unauthorized_run. unfold throw, perform. simpl.
  rewrite <- !app_assoc. reflexivity.
Qed.

(** C4. On a failed response with status 401 the interceptor removes the
    token and the user from local storage and the Authorization header from
    the client's defaults, each exactly once. It assigns [/login] to the
    location exactly once when the path does not contain [/login], and not at
    all when it does. *)
Theorem unauthorized_clears_once_and_redirects_once (error : AxiosError) (b : Browser) :
  is_unauthorized error ->
  let b' := state_after (responseRejected error) b in
  let added := new_effects (responseRejected error) b in
  localStorage b' !! "token" = None /\
  localStorage b' !! "user" = None /\
  common_headers b' !! "Authorization" = None /\
  count_effect (is_storage_removal "token") added = 1%nat /\
  count_effect (is_storage_removal "user") added = 1%nat /\
  count_effect (is_header_removal "Authorization") added = 1%nat /\
  List.filter is_navigation added
  = (if includes "/login" (pathname b) then [] else [Navigate "/login"]) /\
  (count_effect is_navigation added = 1%nat <-> includes "/login" (pathname b) = false) /\
  (includes "/login" (pathname b) = true -> count_effect is_navigation added = 0%nat).
Proof.
  intros Hunauth b' added.
  assert (Hadded : added =
            [ConsoleError [LogString "❌ API Error:"; api_error_summary error];
             StorageRemove "token"; StorageRemove "user";
             HeaderDelete "Authorization"] ++
            (if includes "/login" (pathname b) then [] else [Navigate "/login"])).
  { apply new_effects_spec. unfold state_after.
    rewrite (responseRejected_unauthorized_run error b Hunauth). reflexivity. }
  subst b'. unfold state_after.
  rewrite (responseRejected_unauthorized_run error b Hunauth). simpl.
  rewrite Hadded. unfold count_effect.
  split; [by rewrite lookup_delete_ne, lookup_delete_eq |].
  split; [by rewrite lookup_delete_eq |].
  split; [by rewrite lookup_delete_eq |].
  destruct (includes "/login" (pathname b)); simpl; repeat split; auto; discriminate.
Qed.

(** A signed-in browser on [/dashboard] receives a 401: the credentials go
    and the location is set to [/login] once. *)
Lemma unauthorized_clears_once_and_redirects_once_witness :
  let b := signed_in "/dashboard" "{}" in
  let b' := state_after (responseRejected unauthorized_error) b in
  let added := new_effects (responseRejected unauthorized_error) b in
  localStorage b' !! "token" = None /\
  localStorage b' !! "user" = None /\
  common_headers b' !! "Authorization" = None /\
  count_effect (is_storage_removal "token") added = 1%nat /\
  count_effect (is_storage_removal "user") added = 1%nat /\
  count_effect (is_header_removal "Authorization") added = 1%nat /\
  List.filter is_navigation added
  = (if includes "/login" (pathname b) then [] else [Navigate "/login"]) /\
  (count_effect is_navigation added = 1%nat <-> includes "/login" (pathname b) = false) /\
  (includes "/login" (pathname b) = true -> count_effect is_navigation added = 0%nat).
Proof.
  apply (unauthorized_clears_once_and_redirects_once unauthorized_error
           (signed_in "/dashboard" "{}")).
  eexists. split; reflexivity.
Defined.

(** X4. The handler re-raises the error it was given, after logging and side
    effects, unless the error carries a 404 response and no [config]. *)
Lemma responseRejected_reraises (error : AxiosError) (b : Browser) :
  (forall r, response error = Some r -> status r = 404 -> is_Some (config error)) ->
  result_of (responseRejected error) b = inl (ThrownError error).
Proof.
  intros Hconfig. unfold result_of, responseRejected.
  unfold bind at 1. unfold console_error at 1.
  destruct (response error) as [r |] eqn:Hr.
  - destruct (Z.eqb_spec (status r) 401) as [H401 | _].
    { unfold bind. rewrite on_unauthorized_run. reflexivity. }
    destruct (Z.eqb_spec (status r) 403) as [_ | _]; [reflexivity |].
    destruct (Z.eqb_spec (status r) 404) as [H404 | _].
    { destruct (Hconfig r eq_refl H404) as [c Hc].
      unfold on_not_found. rewrite Hc. reflexivity. }
    destruct (Z.eqb_spec (status r) 500) as [_ | _]; reflexivity.
  - destruct (request error); reflexivity.
Qed.

Lemma responseRejected_reraises_witness :
  result_of (responseRejected unauthorized_error) (signed_out "/login")
  = inl (ThrownError unauthorized_error).
Proof.
  apply responseRejected_reraises. intros r Hr H404.
  injection Hr as <-. discriminate H404.
Defined.

(** C5, at an error with a 404 response and no [config]: the 404 branch
    reads [error.config.url], which throws, so the caller receives a
    [TypeError] in place of the original error. The claim asks for the
    original error. *)
Theorem responseRejected_not_found_without_config (b : Browser) :
  result_of (responseRejected not_found_without_config) b
  = inl (TypeError "Cannot read properties of undefined (reading 'url')") /\
  result_of (responseRejected not_found_without_config) b
  <> inl (ThrownError not_found_without_config).
Proof. split; [reflexivity | discriminate]. Qed.

(** C6 as stated fails: with the empty string stored under [token], the
    key exists and [isAuthenticated()] still returns false. *)
Lemma isAuthenticated_empty_token_counterexample :
  ~ (forall b : Browser,
       result_of isAuthenticated b = inr false <-> localStorage b !! "token" = None).
Proof.
  intros Hclaim.
  destruct (Hclaim empty_token_browser) as [Hfalse _].
  specialize (Hfalse eq_refl). simpl in Hfalse.
  rewrite lookup_insert_eq in Hfalse. discriminate Hfalse.
Qed.

(** C6, amended. [isAuthenticated()] returns false exactly when no token
    key exists or the stored token is the empty string, and true exactly
    when a non-empty token is stored. It leaves the browser as it was: no
    effect is performed, so no request is sent. *)
Theorem isAuthenticated_iff_nonempty_token (b : Browser) :
  (result_of isAuthenticated b = inr false <->
   localStorage b !! "token" = None \/ localStorage b !! "token" = Some "") /\
  (result_of isAuthenticated b = inr true <->
   exists token, localStorage b !! "token" = Some token /\ token <> "") /\
  state_after isAuthenticated b = b /\
  new_effects isAuthenticated b = [] /\
  count_effect is_http_request (new_effects isAuthenticated b) = 0%nat.
Proof.
  assert (Hnew : new_effects isAuthenticated b = []).
  { unfold new_effects, state_after. simpl. apply drop_all. }
  rewrite Hnew. unfold result_of, state_after, isAuthenticated, bind,
    localStorage_getItem, ret. simpl.
  repeat split; auto.
  - destruct (localStorage b !! "token") as [token |]; [| auto].
    simpl. destruct (String.eqb_spec token ""); [subst; auto | discriminate].
  - intros [-> | ->]; reflexivity.
  - destruct (localStorage b !! "token") as [token |]; [| discriminate].
    simpl. destruct (String.eqb_spec token ""); [discriminate | eauto].
  - intros (token & -> & Hne). simpl.
    destruct (String.eqb_spec token ""); [contradiction | reflexivity].
Qed.

Section WithCodec.
Context {codec : JsonCodec}.

Lemma setAuth_run (token : string) (user : json) (b : Browser) :
  setAuth token user b =
  (inr tt,
   {| localStorage :=
        <["user" := JSON_stringify user]> (<["token" := token]> (localStorage b));
      common_headers :=
        <["Authorization" := "Bearer " +:+ token]> (common_headers b);
      pathname := pathname b;
      effects := effects b ++
                 [StorageSet "token" token;
                  StorageSet "user" (JSON_stringify user);
                  HeaderSet "Authorization" ("Bearer " +:+ token)] |}).
Proof.
  unfold setAuth, bind, localStorage_setItem, set_common_header. simpl.
  rewrite <- !app_assoc. reflexivity.
Qed.

Lemma clearAuth_run (b : Browser) :
  clearAuth b =
  (inr tt,
   {| localStorage := delete "user" (delete "token" (localStorage b));
      common_headers := delete "Authorization" (common_headers b);
      pathname := pathname b;
      effects := effects b ++
                 [StorageRemove "token"; StorageRemove "user";
                  HeaderDelete "Authorization"] |}).
Proof.
  unfold clearAuth, bind, localStorage_removeItem, delete_common_header. simpl.
  rewrite <- !app_assoc. reflexivity.
Qed.

(** What [getCurrentUser] does, by the stored text. *)
Lemma getCurrentUser_missing (b : Browser) :
  localStorage b !! "user" = None ->
  getCurrentUser b = (inr JNull, b).
Proof.
  intros H. unfold getCurrentUser, try_catch, bind, localStorage_getItem.
  rewrite H. reflexivity.
Qed.

Lemma getCurrentUser_empty (b : Browser) :
  localStorage b !! "user" = Some "" ->
  getCurrentUser b = (inr JNull, b).
Proof.
  intros H. unfold getCurrentUser, try_catch, bind, localStorage_getItem.
  rewrite H. reflexivity.
Qed.

Lemma getCurrentUser_parsed (b : Browser) (text : string) (value : json) :
  localStorage b !! "user" = Some text -> text <> "" ->
  JSON_parse text = Some value ->
  getCurrentUser b = (inr value, b).
Proof.
  intros H Hne Hparse.
  unfold getCurrentUser, try_catch, bind, localStorage_getItem.
  rewrite H. simpl. destruct (String.eqb_spec text ""); [contradiction |].
  simpl. unfold JSON_parse_or_throw. rewrite Hparse. reflexivity.
Qed.

Lemma getCurrentUser_malformed (b : Browser) (text : string) :
  localStorage b !! "user" = Some text -> text <> "" ->
  JSON_parse text = None ->
  getCurrentUser b =
  (inr JNull,
   perform (ConsoleError [LogString "Error parsing user data:";
                          LogThrown (SyntaxError text)]) b).
Proof.
  intros H Hne Hparse.
  unfold getCurrentUser, try_catch, bind, localStorage_getItem.
  rewrite H. simpl. destruct (String.eqb_spec text ""); [contradiction |].
  simpl. unfold JSON_parse_or_throw. rewrite Hparse. reflexivity.
Qed.

(** C7. When the user entry is missing, or holds text that is not valid
    JSON, [getCurrentUser()] returns [null] and does not throw. Storage is
    left as it was; a failed parse is caught and logged with
    [console.error], and nothing else is done. *)
Theorem getCurrentUser_absent_without_throwing (b : Browser) :
  (localStorage b !! "user" = None \/
   exists text, localStorage b !! "user" = Some text /\ JSON_parse text = None) ->
  result_of getCurrentUser b = inr JNull /\
  localStorage (state_after getCurrentUser b) = localStorage b /\
  common_headers (state_after getCurrentUser b) = common_headers b /\
  (forall text, localStorage b !! "user" = Some text -> text <> "" ->
     new_effects getCurrentUser b =
     [ConsoleError [LogString "Error parsing user data:";
                    LogThrown (SyntaxError text)]]) /\
  (localStorage b !! "user" = None \/ localStorage b !! "user" = Some "" ->
     new_effects getCurrentUser b = []).
Proof.
  intros Hcase.
  assert (Hquiet : getCurrentUser b = (inr JNull, b) ->
            new_effects getCurrentUser b = []).
  { intros Hrun. unfold new_effects, state_after. rewrite Hrun. apply drop_all. }
  destruct Hcase as [Hnone | (text & Htext & Hparse)].
  - pose proof (getCurrentUser_missing b Hnone) as Hrun.
    unfold result_of, state_after. rewrite Hrun. simpl.
    repeat split; auto. intros text Htext. congruence.
  - destruct (String.eqb_spec text "") as [-> | Hne].
    + pose proof (getCurrentUser_empty b Htext) as Hrun.
      unfold result_of, state_after. rewrite Hrun. simpl.
      repeat split; auto. intros text Htext' Hne. congruence.
    + pose proof (getCurrentUser_malformed b text Htext Hne Hparse) as Hrun.
      unfold result_of, state_after. rewrite Hrun. simpl.
      repeat split.
      * intros text' Htext' _.
        assert (text' = text) as -> by congruence.
        apply new_effects_spec. unfold state_after. rewrite Hrun. reflexivity.
      * intros [Hnone | Hempty]; congruence.
Qed.

(** When both writes of [setAuth(token, user)] succeed and the platform
    parses back what it serialized, [getCurrentUser()] called next returns
    [user]. *)
Lemma setAuth_then_getCurrentUser {round_trip : JsonRoundTrip codec}
    (token : string) (user : json) (b : Browser) :
  result_of getCurrentUser (state_after (setAuth token user) b) = inr user.
Proof.
  unfold result_of, state_after. rewrite setAuth_run. simpl.
  erewrite getCurrentUser_parsed; [reflexivity | | |].
  - simpl. apply lookup_insert_eq.
  - apply stringify_nonempty.
  - apply parse_stringify.
Qed.

(** Each step that writes the credential pair leaves both entries present
    or both absent. *)
Lemma auth_step_pairs (b b' : Browser) :
  auth_step b b' -> credentials_paired b'.
Proof.
  intros Hstep. unfold credentials_paired.
  destruct Hstep as [token user b | b | error b Hunauth]; unfold state_after.
  - rewrite setAuth_run. simpl.
    rewrite lookup_insert_eq, lookup_insert_ne, lookup_insert_eq by done.
    split; eauto.
  - rewrite clearAuth_run. simpl.
    rewrite lookup_delete_eq, lookup_delete_ne, lookup_delete_eq by done.
    split; intros [? H]; discriminate H.
  - rewrite (responseRejected_unauthorized_run error b Hunauth). simpl.
    rewrite lookup_delete_eq, lookup_delete_ne, lookup_delete_eq by done.
    split; intros [? H]; discriminate H.
Qed.

(** From a state with paired credentials, every state the client reaches by
    such steps has them paired. *)
Lemma auth_reachable_paired (b b' : Browser) :
  auth_reachable b b' -> credentials_paired b -> credentials_paired b'.
Proof.
  induction 1 as [| b1 b2 _ IH Hstep]; intros Hstart.
  - exact Hstart.
  - exact (auth_step_pairs b1 b2 Hstep).
Qed.

(** As long as the writes of [setAuth] succeed, the token is present in
    local storage exactly when the user is: [setAuth] sets both,
    [clearAuth] removes both, the 401 branch of the response interceptor
    removes both, and so it is in every state reached by any sequence of
    these operations. *)
Lemma auth_operations_keep_credentials_paired (b : Browser) :
  credentials_paired b ->
  (forall token user,
     let b' := state_after (setAuth token user) b in
     credentials_paired b' /\
     localStorage b' !! "token" = Some token /\
     localStorage b' !! "user" = Some (JSON_stringify user)) /\
  (let b' := state_after clearAuth b in
   credentials_paired b' /\
   localStorage b' !! "token" = None /\ localStorage b' !! "user" = None) /\
  (forall error, is_unauthorized error ->
     let b' := state_after (responseRejected error) b in
     credentials_paired b' /\
     localStorage b' !! "token" = None /\ localStorage b' !! "user" = None) /\
  (forall b', auth_reachable b b' -> credentials_paired b').
Proof.
  intros Hpaired. split; [| split; [| split]].
  - intros token user b'. split; [apply (auth_step_pairs b), step_setAuth |].
    subst b'. unfold state_after. rewrite setAuth_run. simpl.
    rewrite lookup_insert_eq, lookup_insert_ne, lookup_insert_eq by done.
    split; reflexivity.
  - intros b'. split; [apply (auth_step_pairs b), step_clearAuth |].
    subst b'. unfold state_after. rewrite clearAuth_run. simpl.
    rewrite lookup_delete_eq, lookup_delete_ne, lookup_delete_eq by done.
    split; reflexivity.
  - intros error Hunauth b'.
    split; [apply (auth_step_pairs b), step_unauthorized, Hunauth |].
    subst b'. unfold state_after.
    rewrite (responseRejected_unauthorized_run error b Hunauth). simpl.
    rewrite lookup_delete_eq, lookup_delete_ne, lookup_delete_eq by done.
    split; reflexivity.
  - intros b' Hreach. exact (auth_reachable_paired b b' Hreach Hpaired).
Qed.

(** [clearAuth()] after [setAuth(token, user)]: [isAuthenticated()] is
    false and the default Authorization header is gone. *)
Lemma clearAuth_after_setAuth (token : string) (user : json) (b : Browser) :
  let b' := state_after clearAuth (state_after (setAuth token user) b) in
  result_of isAuthenticated b' = inr false /\
  common_headers b' !! "Authorization" = None.
Proof.
  unfold state_after, result_of. rewrite setAuth_run, clearAuth_run. simpl.
  unfold isAuthenticated, bind, localStorage_getItem, ret. simpl.
  rewrite lookup_delete_ne, !lookup_delete_eq by done. split; reflexivity.
Qed.

End WithCodec.

Import JsonText JsonTextFacts.

(** The stored user is cut short: [getCurrentUser()] logs and returns
    [null]. *)
Lemma getCurrentUser_absent_without_throwing_witness :
  let b := signed_in "/profile" "{oops" in
  result_of getCurrentUser b = inr JNull /\
  localStorage (state_after getCurrentUser b) = localStorage b /\
  common_headers (state_after getCurrentUser b) = common_headers b /\
  (forall text, localStorage b !! "user" = Some text -> text <> "" ->
     new_effects getCurrentUser b =
     [ConsoleError [LogString "Error parsing user data:";
                    LogThrown (SyntaxError text)]]) /\
  (localStorage b !! "user" = None \/ localStorage b !! "user" = Some "" ->
     new_effects getCurrentUser b = []).
Proof.
  apply (getCurrentUser_absent_without_throwing (signed_in "/profile" "{oops")).
  right. exists "{oops". split; [apply lookup_insert_eq | reflexivity].
Defined.

Lemma setAuth_then_getCurrentUser_witness :
  result_of getCurrentUser
    (state_after (setAuth "abc.def.ghi" sample_user) (signed_out "/login"))
  = inr sample_user.
Proof.
  exact (setAuth_then_getCurrentUser (round_trip := text_round_trip)
           "abc.def.ghi" sample_user (signed_out "/login")).
Defined.

(** Storage is empty, so the credentials are paired; after [setAuth] both
    are there, and they stay paired through a later 401. *)
Lemma auth_operations_keep_credentials_paired_witness :
  credentials_paired (signed_out "/login") /\
  credentials_paired
    (state_after (responseRejected unauthorized_error)
       (state_after (setAuth "abc.def.ghi" sample_user) (signed_out "/login"))).
Proof.
  assert (Hstart : credentials_paired (signed_out "/login")).
  { unfold credentials_paired, signed_out. simpl.
    rewrite !lookup_empty. split; intros [? H]; discriminate H. }
  split; [exact Hstart |].
  destruct (auth_operations_keep_credentials_paired (signed_out "/login") Hstart)
    as (_ & _ & _ & Hreach).
  apply Hreach.
  eapply reach_step; [eapply reach_step; [apply reach_start |] |].
  - apply step_setAuth.
  - apply step_unauthorized. eexists. split; reflexivity.
Defined.

End ApiFacts.

(** * Properties of the server's start *)

Module ServerFacts.
Import Server.

(** [connectDB] leaves the process running and the server state alone; it
    returns a handle exactly when the attempt succeeds, and then the
    connection is connected, otherwise disconnected. *)
Lemma connectDB_outcome (w : World) (p : Process) :
  let (handle, p') := connectDB w p in
  exit_code p' = exit_code p /\
  listening p' = listening p /\
  env p' = env p /\
  match connect_outcome w with
  | inr conn => handle = Some conn /\ readyState p' = 1
  | inl _ => handle = None /\ readyState p' = 0
  end.
Proof.
  unfold connectDB, mongoose_connect.
  destruct (connect_outcome w) as [err | conn]; simpl.
  - destruct (String.eqb (error_name err) "MongooseServerSelectionError");
      [| destruct (String.eqb (error_name err) "MongoNetworkError")];
      simpl; auto.
  - auto.
Qed.

Lemma configure_alive (w : World) (p : Process) :
  exit_code (configure w p) = exit_code p /\
  listening (configure w p) = listening p /\
  readyState (configure w p) = readyState p.
Proof.
  unfold configure.
  repeat match goal with
         | |- context [if ?c then _ else _] => destruct c
         end; simpl; auto.
Qed.

(** The health route answers 200 and reports the connection state it finds
    when the request is handled. *)
Lemma get_api_health_reads_state (now : string) (p : Process) :
  status_code (get_api_health now p) = 200 /\
  database (body (get_api_health now p))
  = (if readyState p =? 1 then "Connected" else "Disconnected").
Proof. split; reflexivity. Qed.

(** [startServer] rejects only when [app.listen] throws. *)
Lemma startServer_listens (w : World) (p : Process) :
  listen_failure w = None ->
  exists p', startServer w p = (inr tt, p') /\
             listening p' = Some (PORT p) /\
             exit_code p' = exit_code p /\
             readyState p' = readyState (snd (connectDB w p)).
Proof.
  intros Hlisten. unfold startServer.
  pose proof (connectDB_outcome w p) as Hconnect.
  destruct (connectDB w p) as [handle p1].
  destruct Hconnect as (Hexit & _ & Henv & _).
  rewrite Hlisten. eexists. split; [reflexivity |].
  unfold on_listening.
  assert (HPORT : PORT p1 = PORT p).
  { unfold PORT, env_set. rewrite Henv. reflexivity. }
  destruct (negb (readyState (say_all _ (listen_on (PORT p1) p1)) =? 1));
    simpl; rewrite HPORT; auto.
Qed.

(** C1. When the connection attempt made at start fails, [connectDB]
    returns [null], the process does not exit, the HTTP server listens, and
    [GET /api/health] is answered with status 200 and database
    [Disconnected]. The answer is computed from the connection state found
    when the request is handled: were the state to change afterwards, the
    same route would report the new state. *)
Theorem server_starts_without_database (err : MongoError) (clock : Z)
    (environment : gmap string string) (now : string) :
  let w := database_down err clock in
  let p := main w (fresh environment) in
  fst (connectDB w (configure w (fresh environment))) = None /\
  exit_code p = None /\
  is_Some (listening p) /\
  (exists answer,
     request_health now p = Some answer /\
     status_code answer = 200 /\
     database (body answer) = "Disconnected") /\
  (forall state,
     database (body (get_api_health now (set_readyState state p)))
     = (if state =? 1 then "Connected" else "Disconnected")).
Proof.
  intros w p.
  pose proof (connectDB_outcome w (configure w (fresh environment))) as Hconnect.
  pose proof (configure_alive w (fresh environment)) as (Hexit0 & _ & _).
  destruct (startServer_listens w (configure w (fresh environment)) eq_refl)
    as (p' & Hstart & Hlisten & Hexit & Hready).
  assert (Hp : p = p').
  { subst p. unfold main, start. rewrite Hstart. reflexivity. }
  destruct (connectDB w (configure w (fresh environment))) as [handle p1].
  simpl in Hconnect, Hready. destruct Hconnect as (_ & _ & _ & Hnull & Hstate).
  rewrite Hp.
  assert (Halive : exit_code p' = None) by (rewrite Hexit, Hexit0; reflexivity).
  split; [exact Hnull |].
  split; [exact Halive |].
  split; [rewrite Hlisten; eauto |].
  split; [| intros state; reflexivity].
  exists (get_api_health now p'). unfold request_health.
  rewrite Halive, Hlisten. split; [reflexivity |]. split; [reflexivity |].
  simpl. unfold database_state. rewrite Hready, Hstate. reflexivity.
Qed.

(** The start is fatal only when [app.listen] throws: then the process
    exits with code 1. *)
Lemma main_exits_when_listen_throws (w : World) (environment : gmap string string)
    (error : string) :
  listen_failure w = Some error ->
  exit_code (main w (fresh environment)) = Some 1.
Proof.
  intros Hlisten. unfold main, start, startServer.
  destruct (connectDB w (configure w (fresh environment))) as [handle p1].
  rewrite Hlisten. reflexivity.
Qed.

(** [backend/server.js] behaves otherwise: when the connection attempt
    fails it ends the process with code 1, and no request is answered
    afterwards. *)
Lemma legacy_main_exits_without_database (err : MongoError) (clock : Z)
    (environment : gmap string string) (now : string) :
  let p := LegacyServer.main (database_down err clock) (fresh environment) in
  exit_code p = Some 1 /\ LegacyServer.request_health now p = None.
Proof. split; reflexivity. Qed.

End ServerFacts.

(** * More on the retry helper *)

Module RetryMore.
Import Api Client RetryFacts.

(** Twice the sum of [delay * 1], ..., [delay * count]. *)
Lemma linear_waits_sum (delay : Z) (start count : nat) :
  2 * foldr Z.add 0
        (List.map (fun i => delay * (1 + Z.of_nat i)) (seq start count))
  = delay * Z.of_nat count * (2 * Z.of_nat start + Z.of_nat count + 1).
Proof.
  revert start. induction count as [| count IH]; intros start.
  - simpl. lia.
  - cbn [seq List.map foldr]. specialize (IH (S start)). nia.
Qed.

Section Shape.
Context {World Value Err : Type}.
Variable apiCall : World -> (Err + Value) * World.


End Shape.

(** X1. Linear backoff, for an integer [maxRetries] and an integer [delay]
    in the range where JavaScript numbers are exact. When the first
    [failures] invocations fail and the next one succeeds within the bound,
    the helper resolves with its value after [failures + 1] invocations.
    Wait number [i] lasts [delay * i], so the waits add up to
    [delay * failures * (failures + 1) / 2]. *)
Theorem apiWithRetry_linear_backoff {World Value Err : Type}
    (apiCall : World -> (Err + Value) * World) (maxRetries delay : Z) (w : World)
    (failures : nat) (value : Value) :
  maxRetries <= 2 ^ 53 -> Z.abs delay * maxRetries <= 2 ^ 53 ->
  Z.of_nat failures < maxRetries ->
  (forall i, (i < failures)%nat -> exists error, nth_result apiCall i w = inl error) ->
  nth_result apiCall failures w = inr value ->
  exists run,
    apiWithRetry apiCall maxRetries delay w = Some run /\
    outcome run = Resolved (Some value) /\
    invocations (trace run) = S failures /\
    delays (trace run)
    = List.map (fun i => delay * (1 + Z.of_nat i)) (seq 0 failures) /\
    2 * total_wait (trace run)
    = delay * Z.of_nat failures * (Z.of_nat failures + 1).
Proof.
  intros _ _ Hbound Hfail Hvalue.
  destruct (apiWithRetry_eventual_success apiCall maxRetries delay w failures value
              Hbound Hfail Hvalue) as (run & Hrun & Hout & _ & Hinv & Hdelays).
  exists run. repeat split; auto.
  unfold total_wait. rewrite Hdelays, linear_waits_sum. lia.
Qed.

Lemma apiWithRetry_linear_backoff_witness :
  exists run,
    apiWithRetry (flaky 4) 6 50 0%nat = Some run /\
    outcome run = Resolved (Some 5%nat) /\
    invocations (trace run) = 5%nat /\
    delays (trace run) = [50; 100; 150; 200] /\
    2 * total_wait (trace run) = 50 * 4 * 5.
Proof.
  apply (apiWithRetry_linear_backoff (flaky 4) 6 50 0%nat 4 5%nat).
  - lia.
  - lia.
  - lia.
  - intros i Hi. exists ("failure " +:+ pretty (S i)).
    do 4 (destruct i as [| i]; [reflexivity |]). lia.
  - reflexivity.
Defined.

(** X2. Giving up, for an integer [maxRetries] and an integer [delay] in
    the range where JavaScript numbers are exact. When each of the first
    [maxRetries] invocations fails, the helper rejects with the error of
    the last of them after exactly [maxRetries] invocations; it waits
    between them and not after the last,
    [delay * maxRetries * (maxRetries - 1) / 2] in all. *)
Theorem apiWithRetry_gives_up {World Value Err : Type}
    (apiCall : World -> (Err + Value) * World) (maxRetries delay : Z) (w : World)
    (last : Err) :
  maxRetries <= 2 ^ 53 -> Z.abs delay * maxRetries <= 2 ^ 53 ->
  1 <= maxRetries ->
  (forall i, (i < Z.to_nat maxRetries)%nat ->
     exists error, nth_result apiCall i w = inl error) ->
  nth_result apiCall (Z.to_nat maxRetries - 1) w = inl last ->
  exists run,
    apiWithRetry apiCall maxRetries delay w = Some run /\
    outcome run = Rejected last /\
    invocations (trace run) = Z.to_nat maxRetries /\
    length (delays (trace run)) = (Z.to_nat maxRetries - 1)%nat /\
    2 * total_wait (trace run) = delay * maxRetries * (maxRetries - 1).
Proof.
  intros _ _ Hbound Hfail Hlast.
  destruct (apiWithRetry_exhausted apiCall maxRetries delay w last Hbound Hfail Hlast)
    as (run & Hrun & Hout & Hinv & Hdelays).
  exists run. repeat split; auto.
  - rewrite Hdelays, length_map, length_seq. reflexivity.
  - unfold total_wait. rewrite Hdelays, linear_waits_sum.
    replace (Z.of_nat (Z.to_nat maxRetries - 1)) with (maxRetries - 1) by lia.
    ring.
Qed.

Lemma apiWithRetry_gives_up_witness :
  exists run,
    apiWithRetry hopeless 4 50 0%nat = Some run /\
    outcome run = Rejected "failure 4" /\
    invocations (trace run) = 4%nat /\
    length (delays (trace run)) = 3%nat /\
    2 * total_wait (trace run) = 50 * 4 * (4 - 1).
Proof.
  apply (apiWithRetry_gives_up hopeless 4 50 0%nat "failure 4").
  - lia.
  - lia.
  - lia.
  - intros i _. eexists. reflexivity.
  - reflexivity.
Defined.



End RetryMore.

(** * More on the response interceptor and the auth-state helpers *)

Module ApiMore.
Import Api Client ApiFacts.

(** The state and the added effects of a run that only wrote to the
    console. *)
Lemma console_only {A : Type} (m : Js A) (b : Browser) (added : list effect) :
  snd (m b) =
    {| localStorage := localStorage b; common_headers := common_headers b;
       pathname := pathname b; effects := effects b ++ added |} ->
  forallb is_console added = true ->
  localStorage (state_after m b) = localStorage b /\
  common_headers (state_after m b) = common_headers b /\
  pathname (state_after m b) = pathname b /\
  forallb is_console (new_effects m b) = true.
Proof.
  intros Hstate Hconsole.
  rewrite (new_effects_spec m b added) by (unfold state_after; rewrite Hstate; reflexivity).
  unfold state_after. rewrite Hstate. auto.
Qed.

(** X5. For a failure that is not a 401 response the interceptor's error handler
    only writes to the console: local storage, the default headers and the
    location are left as they were, whether it re-raises the error or
    throws. *)
Theorem responseRejected_other_status_keeps_state (error : AxiosError) (b : Browser) :
  ~ is_unauthorized error ->
  localStorage (state_after (responseRejected error) b) = localStorage b /\
  common_headers (state_after (responseRejected error) b) = common_headers b /\
  pathname (state_after (responseRejected error) b) = pathname b /\
  forallb is_console (new_effects (responseRejected error) b) = true.
Proof.
  intros Hother. unfold responseRejected.
  destruct (response error) as [r |] eqn:Hr.
  - destruct (Z.eqb_spec (status r) 401) as [H401 | _].
    { exfalso. apply Hother. exists r. auto. }
    destruct (Z.eqb_spec (status r) 403) as [_ | _];
      [eapply console_only; [unfold bind, console_error, throw, perform; simpl;
                             rewrite <- app_assoc; reflexivity | reflexivity] |].
    destruct (Z.eqb_spec (status r) 404) as [_ | _].
    { unfold on_not_found. destruct (config error) as [c |].
      - eapply console_only; [unfold bind, console_error, throw, perform; simpl;
                              rewrite <- app_assoc; reflexivity | reflexivity].
      - eapply console_only; [unfold bind, console_error, throw, perform; simpl;
                              reflexivity | reflexivity]. }
    destruct (Z.eqb_spec (status r) 500) as [_ | _];
      eapply console_only;
      solve [unfold on_other_status, bind, console_error, throw, perform; simpl;
             rewrite <- app_assoc; reflexivity | reflexivity].
  - destruct (request error);
      eapply console_only;
      solve [unfold bind, console_error, throw, perform; simpl;
             rewrite <- app_assoc; reflexivity | reflexivity].
Qed.

Lemma responseRejected_other_status_keeps_state_witness :
  let b := signed_in "/jobs" "{}" in
  localStorage (state_after (responseRejected server_error) b) = localStorage b /\
  common_headers (state_after (responseRejected server_error) b) = common_headers b /\
  pathname (state_after (responseRejected server_error) b) = pathname b /\
  forallb is_console (new_effects (responseRejected server_error) b) = true.
Proof.
  apply (responseRejected_other_status_keeps_state server_error (signed_in "/jobs" "{}")).
  intros (r & Hr & H401). injection Hr as <-. discriminate H401.
Defined.

(** X6. Handling a second 401 changes nothing more: storage and default headers
    are as the first left them, and the handler navigates under the same
    condition as before. *)
Theorem unauthorized_twice_as_once (first second : AxiosError) (b : Browser) :
  is_unauthorized first -> is_unauthorized second ->
  let b1 := state_after (responseRejected first) b in
  let b2 := state_after (responseRejected second) b1 in
  localStorage b2 = localStorage b1 /\
  common_headers b2 = common_headers b1 /\
  List.filter is_navigation (new_effects (responseRejected second) b1)
  = List.filter is_navigation (new_effects (responseRejected first) b).
Proof.
  intros Hfirst Hsecond b1 b2.
  assert (Hadded : forall error b0, is_unauthorized error ->
            List.filter is_navigation (new_effects (responseRejected error) b0)
            = if includes "/login" (pathname b0) then [] else [Navigate "/login"]).
  { intros error b0 Herror.
    rewrite (new_effects_spec _ b0 _
               ltac:(unfold state_after;
                     rewrite (responseRejected_unauthorized_run error b0 Herror);
                     reflexivity)).
    destruct (includes "/login" (pathname b0)); reflexivity. }
  rewrite (Hadded second b1 Hsecond), (Hadded first b Hfirst).
  subst b2 b1. unfold state_after.
  rewrite (responseRejected_unauthorized_run second _ Hsecond).
  rewrite (responseRejected_unauthorized_run first b Hfirst). simpl.
  repeat split.
  - rewrite (delete_delete _ "token" "user"), !delete_delete_eq. reflexivity.
  - apply delete_delete_eq.
Qed.

Lemma unauthorized_twice_as_once_witness :
  let b1 := state_after (responseRejected unauthorized_error) (signed_in "/jobs" "{}") in
  let b2 := state_after (responseRejected unauthorized_error) b1 in
  localStorage b2 = localStorage b1 /\
  common_headers b2 = common_headers b1 /\
  List.filter is_navigation (new_effects (responseRejected unauthorized_error) b1)
  = List.filter is_navigation
      (new_effects (responseRejected unauthorized_error) (signed_in "/jobs" "{}")).
Proof.
  apply (unauthorized_twice_as_once unauthorized_error unauthorized_error
           (signed_in "/jobs" "{}"));
    eexists; split; reflexivity.
Defined.

Section WithCodec.
Context {codec : JsonCodec}.

(** X7. Whatever local storage holds, [getCurrentUser()] returns a value and
    does not throw; it writes nothing but, at most, one console line. *)
Theorem getCurrentUser_never_throws (b : Browser) :
  (exists value, result_of getCurrentUser b = inr value) /\
  localStorage (state_after getCurrentUser b) = localStorage b /\
  common_headers (state_after getCurrentUser b) = common_headers b /\
  forallb is_console (new_effects getCurrentUser b) = true /\
  (length (new_effects getCurrentUser b) <= 1)%nat.
Proof.
  assert (Hquiet : forall value, getCurrentUser b = (inr value, b) ->
            (exists value, result_of getCurrentUser b = inr value) /\
            localStorage (state_after getCurrentUser b) = localStorage b /\
            common_headers (state_after getCurrentUser b) = common_headers b /\
            forallb is_console (new_effects getCurrentUser b) = true /\
            (length (new_effects getCurrentUser b) <= 1)%nat).
  { intros value Hrun. unfold new_effects, result_of, state_after.
    rewrite Hrun. simpl. rewrite drop_all. simpl. repeat split; eauto. }
  destruct (localStorage b !! "user") as [text |] eqn:Htext.
  - destruct (String.eqb_spec text "") as [-> | Hne].
    + apply (Hquiet JNull), getCurrentUser_empty, Htext.
    + destruct (JSON_parse text) as [value |] eqn:Hparse.
      * apply (Hquiet value), (getCurrentUser_parsed b text value Htext Hne Hparse).
      * pose proof (getCurrentUser_malformed b text Htext Hne Hparse) as Hrun.
        rewrite (new_effects_spec getCurrentUser b
                   [ConsoleError [LogString "Error parsing user data:";
                                  LogThrown (SyntaxError text)]])
          by (unfold state_after; rewrite Hrun; reflexivity).
        unfold result_of, state_after. rewrite Hrun. simpl. repeat split; eauto.
  - apply (Hquiet JNull), getCurrentUser_missing, Htext.
Qed.



(** X10. From any state, [clearAuth()] signs the user out: [isAuthenticated()]
    is false, [getCurrentUser()] returns [null] without logging, the default
    Authorization header is gone, and every other storage entry is kept.
    Calling it again changes neither storage nor headers. *)
Theorem clearAuth_signs_out (b : Browser) :
  let b' := state_after clearAuth b in
  result_of isAuthenticated b' = inr false /\
  getCurrentUser b' = (inr JNull, b') /\
  common_headers b' !! "Authorization" = None /\
  (forall key, key <> "token" -> key <> "user" ->
     localStorage b' !! key = localStorage b !! key) /\
  localStorage (state_after clearAuth b') = localStorage b' /\
  common_headers (state_after clearAuth b') = common_headers b'.
Proof.
  intros b'. subst b'. unfold state_after. rewrite !clearAuth_run. simpl.
  split; [| split; [| split; [| split; [| split]]]].
  - unfold result_of, isAuthenticated, bind, localStorage_getItem, ret. simpl.
    rewrite lookup_delete_ne, lookup_delete_eq by done. reflexivity.
  - apply getCurrentUser_missing. simpl. apply lookup_delete_eq.
  - apply lookup_delete_eq.
  - intros key Htoken Huser. rewrite !lookup_delete_ne by done. reflexivity.
  - rewrite (delete_delete _ "token" "user"), !delete_delete_eq. reflexivity.
  - apply delete_delete_eq.
Qed.

End WithCodec.

End ApiMore.

(** * Properties of the rest of the client *)

Module ClientFacts.
Import Api Client ApiFacts.

(** ** The progress callback of [uploadFile] *)

(** For a positive [total], rounding the exact quotient is integer
    division of [200 * loaded + total] by [2 * total]. *)
Lemma percentCompleted_div (loaded total : Z) :
  0 < total ->
  percentCompleted loaded total = (200 * loaded + total) / (2 * total).
Proof.
  intros Htotal. unfold percentCompleted, Math_round.
  rewrite Zdiv_Qdiv. apply Qfloor_comp.
  rewrite !inject_Z_plus, !inject_Z_mult.
  assert (Hnz : ~ (inject_Z total == 0)%Q).
  { intros H. apply (inject_Z_injective total 0) in H. lia. }
  field. exact Hnz.
Qed.

(** X18. While an upload of [total] bytes is under way the percentage reported
    lies between 0 and 100, is 0 when nothing was sent and 100 when all
    was, and does not go down as more is sent. *)
Theorem upload_percent_in_range (loaded later total : Z) :
  0 < total -> 0 <= loaded -> loaded <= later -> later <= total ->
  0 <= percentCompleted loaded total /\
  percentCompleted loaded total <= percentCompleted later total /\
  percentCompleted later total <= 100 /\
  percentCompleted 0 total = 0 /\
  percentCompleted total total = 100.
Proof.
  intros Htotal Hloaded Hlater Hend.
  rewrite !percentCompleted_div by exact Htotal.
  repeat split.
  - apply Z.div_pos; lia.
  - apply Z.div_le_mono; lia.
  - apply Z.lt_succ_r, Z.div_lt_upper_bound; lia.
  - apply Z.div_small. lia.
  - symmetry. apply (Z.div_unique _ _ 100 total); lia.
Qed.

Lemma upload_percent_in_range_witness :
  0 <= percentCompleted 1 3 /\
  percentCompleted 1 3 <= percentCompleted 2 3 /\
  percentCompleted 2 3 <= 100 /\
  percentCompleted 0 3 = 0 /\
  percentCompleted 3 3 = 100.
Proof. apply (upload_percent_in_range 1 2 3); lia. Defined.

(** X19. For byte counts with [0 <= loaded <= total < 2^46], where the
    quotient of the two doubles rounds as the exact quotient does, the
    callback reports 100 before the upload has finished: exactly from the
    point where 99.5 percent of the bytes were sent. *)
Theorem upload_percent_hundred_early (loaded total : Z) :
  0 < total -> total < 2 ^ 46 -> 0 <= loaded -> loaded <= total ->
  (percentCompleted loaded total = 100 <-> 199 * total <= 200 * loaded).
Proof.
  intros Htotal _ _ Hend. rewrite percentCompleted_div by exact Htotal.
  split.
  - intros H.
    pose proof (Z.mul_div_le (200 * loaded + total) (2 * total) ltac:(lia)) as Hle.
    rewrite H in Hle. lia.
  - intros H. symmetry.
    apply (Z.div_unique _ _ 100 (200 * loaded + total - 200 * total)); lia.
Qed.

Lemma upload_percent_hundred_early_witness :
  percentCompleted 199 200 = 100 <-> 199 * 200 <= 200 * 199.
Proof. apply (upload_percent_hundred_early 199 200); lia. Defined.

(** The caller's callback runs once, with the percentage, when the event
    carries a total that is not 0; without a total, or with total 0, it does
    not run and nothing is divided. Without a callback nothing happens. *)
Theorem onUploadProgress_guards (report : Z -> Js unit) (loaded : Z) (b : Browser) :
  (forall total, total <> 0 ->
     onUploadProgress (Some report) loaded (Some total) b
     = report (percentCompleted loaded total) b) /\
  onUploadProgress (Some report) loaded (Some 0) b = (inr tt, b) /\
  onUploadProgress (Some report) loaded None b = (inr tt, b) /\
  (forall total, onUploadProgress None loaded total b = (inr tt, b)).
Proof.
  repeat split.
  intros total Htotal. unfold onUploadProgress.
  destruct (Z.eqb_spec total 0); [contradiction | reflexivity].
Qed.

(** ** The request interceptor *)

Lemma requestFulfilled_run (config : InternalRequestConfig) (b : Browser) :
  exists line,
    requestFulfilled config b =
    (inr (if truthy_item (localStorage b !! "token")
          then with_header "Authorization"
                 ("Bearer " +:+ interpolate (localStorage b !! "token")) config
          else config),
     perform (ConsoleLog line) b).
Proof.
  unfold requestFulfilled, bind, localStorage_getItem, console_log, ret.
  eexists. reflexivity.
Qed.



(** X11. With a non-empty token in local storage the interceptor sends the
    request on with [Authorization: Bearer <token>], replacing any
    Authorization header the caller had set. The other headers, the URL, the
    method and the payload are as given, and neither local storage nor the
    default headers are written. *)
Theorem requestFulfilled_attaches_token (config : InternalRequestConfig)
    (b : Browser) (token : string) :
  localStorage b !! "token" = Some token -> token <> "" ->
  exists sent,
    result_of (requestFulfilled config) b = inr sent /\
    headers sent !! "Authorization" = Some ("Bearer " +:+ token) /\
    (forall name, name <> "Authorization" ->
       headers sent !! name = headers config !! name) /\
    url sent = url config /\ method sent = method config /\
    data sent = data config /\
    localStorage (state_after (requestFulfilled config) b) = localStorage b /\
    common_headers (state_after (requestFulfilled config) b) = common_headers b.
Proof.
  intros Htoken Hne.
  destruct (requestFulfilled_run config b) as [line Hrun].
  unfold result_of, state_after. rewrite Hrun, Htoken. simpl.
  destruct (String.eqb_spec token ""); [contradiction |]. simpl.
  eexists. split; [reflexivity |]. simpl.
  split; [apply lookup_insert_eq |].
  split; [intros name Hname; apply lookup_insert_ne; congruence |].
  repeat split.
Qed.

Lemma requestFulfilled_attaches_token_witness :
  let config := {| url := Some "/jobs"; method := Some "get";
                   headers := <["Authorization" := "Basic stale"]> ∅;
                   data := None |} in
  let b := signed_in "/jobs" "{}" in
  exists sent,
    result_of (requestFulfilled config) b = inr sent /\
    headers sent !! "Authorization" = Some ("Bearer " +:+ "abc.def.ghi") /\
    (forall name, name <> "Authorization" ->
       headers sent !! name = headers config !! name) /\
    url sent = url config /\ method sent = method config /\
    data sent = data config /\
    localStorage (state_after (requestFulfilled config) b) = localStorage b /\
    common_headers (state_after (requestFulfilled config) b) = common_headers b.
Proof.
  apply (requestFulfilled_attaches_token _ (signed_in "/jobs" "{}") "abc.def.ghi").
  - unfold signed_in. simpl. rewrite lookup_insert_ne by done. apply lookup_insert_eq.
  - discriminate.
Defined.

(** X12. Without a token in local storage, or with the empty string stored as
    one, the interceptor sends the request on exactly as given, with
    whatever headers the caller set. *)
Theorem requestFulfilled_without_token (config : InternalRequestConfig) (b : Browser) :
  localStorage b !! "token" = None \/ localStorage b !! "token" = Some "" ->
  result_of (requestFulfilled config) b = inr config /\
  localStorage (state_after (requestFulfilled config) b) = localStorage b /\
  common_headers (state_after (requestFulfilled config) b) = common_headers b.
Proof.
  intros Htoken.
  destruct (requestFulfilled_run config b) as [line Hrun].
  unfold result_of, state_after. rewrite Hrun.
  destruct Htoken as [-> | ->]; repeat split.
Qed.

Lemma requestFulfilled_without_token_witness :
  let config := {| url := Some "/jobs"; method := Some "get";
                   headers := ∅; data := None |} in
  result_of (requestFulfilled config) empty_token_browser = inr config /\
  localStorage (state_after (requestFulfilled config) empty_token_browser)
  = localStorage empty_token_browser /\
  common_headers (state_after (requestFulfilled config) empty_token_browser)
  = common_headers empty_token_browser.
Proof.
  apply (requestFulfilled_without_token _ empty_token_browser).
  right. apply lookup_insert_eq.
Defined.

Section WithCodec.
Context {codec : JsonCodec}.


End WithCodec.

Import JsonText.


(** ** [handleApiError] *)

Lemma choose_message_pure (error : AxiosError) (b : Browser) :
  choose_message error b = (fst (choose_message error b), b).
Proof.
  unfold choose_message.
  repeat match goal with
         | |- context [if ?c then _ else _] => destruct c
         | |- context [match ?x with _ => _ end] => destruct x
         end; reflexivity.
Qed.

Lemma handleApiError_settles (error : AxiosError) (message : json) :
  (forall b, fst (choose_message error b) = inr message) ->
  settles_on error message.
Proof.
  intros Hchoose b.
  assert (Hrun : choose_message error b = (inr message, b)).
  { rewrite choose_message_pure, Hchoose. reflexivity. }
  assert (Hset : handleApiError error (Some recording_setError) b
                 = (inr message,
                    {| localStorage := localStorage b;
                       common_headers := common_headers b;
                       pathname := pathname b;
                       effects := effects b ++ reported message true |})).
  { unfold handleApiError, bind. rewrite Hrun.
    unfold console_error, recording_setError, console_log, ret, perform. simpl.
    rewrite <- app_assoc. reflexivity. }
  assert (Hnone : handleApiError error None b
                  = (inr message,
                     {| localStorage := localStorage b;
                        common_headers := common_headers b;
                        pathname := pathname b;
                        effects := effects b ++ reported message false |})).
  { unfold handleApiError, bind. rewrite Hrun. reflexivity. }
  repeat split.
  - unfold result_of. rewrite Hset. reflexivity.
  - apply new_effects_spec. unfold state_after. rewrite Hset. reflexivity.
  - unfold result_of. rewrite Hnone. reflexivity.
  - apply new_effects_spec. unfold state_after. rewrite Hnone. reflexivity.
Qed.

(** X14. The server's message wins: when the response payload has a truthy
    [message], [handleApiError] returns it, whatever [errors] and the
    error's own message hold. *)
Theorem handleApiError_prefers_server_message (error : AxiosError) (text : json) :
  get_field "message" (response_data_of error) = Some text ->
  truthy (Some text) = true ->
  settles_on error text.
Proof.
  intros Hfield Htruthy. apply handleApiError_settles. intros b.
  unfold choose_message. rewrite Hfield, Htruthy. reflexivity.
Qed.

Lemma handleApiError_prefers_server_message_witness :
  settles_on server_error (JString "Database unavailable").
Proof.
  apply (handleApiError_prefers_server_message server_error
           (JString "Database unavailable")); reflexivity.
Defined.



(** X16. Without a truthy [message], a payload whose [errors] is truthy and not
    an array makes [handleApiError] throw a [TypeError]: nothing is logged
    and [setError] is not called. *)
Theorem handleApiError_throws_on_keyed_errors (error : AxiosError) (errors : json)
    (setError : option (json -> Js unit)) (b : Browser) :
  truthy (get_field "message" (response_data_of error)) = false ->
  get_field "errors" (response_data_of error) = Some errors ->
  truthy (Some errors) = true ->
  (forall items, errors <> JArray items) ->
  handleApiError error setError b
  = (inl (TypeError "error.response.data.errors.join is not a function"), b).
Proof.
  intros Hmessage Herrors Htruthy Hshape.
  unfold handleApiError, bind, choose_message.
  rewrite Hmessage, Herrors, Htruthy.
  destruct errors; try reflexivity.
  exfalso. eapply Hshape. reflexivity.
Qed.

Lemma handleApiError_throws_on_keyed_errors_witness :
  handleApiError keyed_validation_error (Some recording_setError) (signed_out "/register")
  = (inl (TypeError "error.response.data.errors.join is not a function"),
     signed_out "/register").
Proof.
  apply (handleApiError_throws_on_keyed_errors keyed_validation_error
           (JObject [("email", JString "is required")]));
    try reflexivity.
  intros items H. discriminate H.
Defined.

(** X17. With neither a truthy [message] nor a truthy [errors] in the payload,
    and so for every error without a response, [handleApiError] returns the
    error's own message, or the fixed text when that is empty. *)
Theorem handleApiError_falls_back (error : AxiosError) :
  truthy (get_field "message" (response_data_of error)) = false ->
  truthy (get_field "errors" (response_data_of error)) = false ->
  settles_on error
    (JString (if String.eqb (message error) ""
              then "An unexpected error occurred"
              else message error)).
Proof.
  intros Hmessage Herrors. apply handleApiError_settles. intros b.
  unfold choose_message. rewrite Hmessage, Herrors.
  destruct (String.eqb (message error) ""); reflexivity.
Qed.

Lemma handleApiError_falls_back_witness :
  settles_on network_error (JString "Network Error").
Proof.
  apply (handleApiError_falls_back network_error); reflexivity.
Defined.

End ClientFacts.

(** * More on the server's start *)

Module ServerMore.
Import Server ServerLog ServerFacts.

(** The environment [configure] leaves: the secret and the expiry are
    filled in where they were missing or empty. *)
Lemma configure_env (w : World) (p : Process) :
  env (configure w p)
  = let filled :=
      if env_set "JWT_SECRET" p then env p
      else <["JWT_SECRET" := development_secret w]> (env p) in
    if env_set "JWT_EXPIRE" p then filled
    else <["JWT_EXPIRE" := "30d"]> filled.
Proof.
  unfold configure, env_set, development_secret. simpl.
  destruct (env p !! "JWT_SECRET") as [secret |] eqn:Hsecret; simpl.
  - destruct (String.eqb secret ""); simpl;
      rewrite ?lookup_insert_ne by done;
      destruct (env p !! "JWT_EXPIRE") as [expire |]; simpl;
      try destruct (String.eqb expire ""); reflexivity.
  - rewrite lookup_insert_ne by done.
    destruct (env p !! "JWT_EXPIRE") as [expire |]; simpl;
      try destruct (String.eqb expire ""); reflexivity.
Qed.

(** X20. After the environment check both [JWT_EXPIRE] and [JWT_SECRET] are
    set. [JWT_EXPIRE] is the value it had, or [30d] when it was missing or
    empty; a secret that was set is kept; no other variable is touched. *)
Theorem configure_fills_defaults (w : World) (p : Process) :
  env (configure w p) !! "JWT_EXPIRE" = Some (env_or "JWT_EXPIRE" "30d" p) /\
  env_set "JWT_EXPIRE" (configure w p) = true /\
  env_set "JWT_SECRET" (configure w p) = true /\
  (env_set "JWT_SECRET" p = true ->
     env (configure w p) !! "JWT_SECRET" = env p !! "JWT_SECRET") /\
  (forall name, name <> "JWT_SECRET" -> name <> "JWT_EXPIRE" ->
     env (configure w p) !! name = env p !! name).
Proof.
  unfold env_or, env_set at 2 3. rewrite configure_env. unfold env_set.
  destruct (env p !! "JWT_EXPIRE") as [expire |] eqn:Hexpire;
    destruct (env p !! "JWT_SECRET") as [secret |] eqn:Hsecret; simpl;
    try destruct (String.eqb_spec expire "");
    try destruct (String.eqb_spec secret ""); simpl;
    rewrite ?lookup_insert_eq, ?(lookup_insert_ne _ "JWT_SECRET" "JWT_EXPIRE"),
      ?(lookup_insert_ne _ "JWT_EXPIRE" "JWT_SECRET"), ?lookup_insert_eq,
      ?Hexpire, ?Hsecret by done; simpl;
    repeat split; try reflexivity; try discriminate;
    try (destruct (String.eqb_spec secret ""); [contradiction | reflexivity]);
    try (destruct (String.eqb_spec expire ""); [contradiction | reflexivity]);
    try (intros name H1 H2; rewrite ?lookup_insert_ne by done; reflexivity).
Qed.

(** X21. Running the environment check again changes no variable: a second
    start in the same process keeps the secret made up by the first. *)
Theorem configure_twice_same_env (w w' : World) (p : Process) :
  env (configure w' (configure w p)) = env (configure w p).
Proof.
  rewrite (configure_env w' (configure w p)).
  assert (Hset : env_set "JWT_EXPIRE" (configure w p) = true /\
                 env_set "JWT_SECRET" (configure w p) = true).
  { unfold env_set. rewrite configure_env. unfold env_set, development_secret.
    destruct (env p !! "JWT_EXPIRE") as [expire |] eqn:Hexpire;
      destruct (env p !! "JWT_SECRET") as [secret |] eqn:Hsecret; simpl;
      try destruct (String.eqb_spec expire "");
      try destruct (String.eqb_spec secret ""); simpl;
      rewrite ?lookup_insert_eq, ?(lookup_insert_ne _ "JWT_SECRET" "JWT_EXPIRE"),
        ?(lookup_insert_ne _ "JWT_EXPIRE" "JWT_SECRET"), ?lookup_insert_eq,
        ?Hexpire, ?Hsecret by done; simpl; split; try reflexivity;
      try (destruct (String.eqb_spec secret ""); [contradiction | reflexivity]);
      try (destruct (String.eqb_spec expire ""); [contradiction | reflexivity]). }
  destruct Hset as [-> ->]. reflexivity.
Qed.

(** X22. On a free port, where [app.listen] either binds the port or
    throws at once, the start ends the process exactly when [app.listen]
    throws, and then with code 1; whether the database could be reached
    plays no part. Otherwise the server listens. A port that is taken
    makes [app.listen] fail later, without throwing: no [World] describes
    that. *)
Theorem main_exits_only_when_listen_throws (w : World)
    (environment : gmap string string) :
  exit_code (main w (fresh environment))
  = match listen_failure w with Some _ => Some 1 | None => None end /\
  (listen_failure w = None -> is_Some (listening (main w (fresh environment)))) /\
  (is_Some (listen_failure w) -> listening (main w (fresh environment)) = None).
Proof.
  pose proof (configure_alive w (fresh environment)) as (Hexit0 & Hlisten0 & _).
  pose proof (connectDB_outcome w (configure w (fresh environment))) as Hconnect.
  destruct (listen_failure w) as [error |] eqn:Hfail.
  - unfold main, start, startServer.
    destruct (connectDB w (configure w (fresh environment))) as [handle p1].
    destruct Hconnect as (_ & Hlisten & _).
    rewrite Hfail. simpl. rewrite Hlisten, Hlisten0.
    repeat split; auto. intros H. discriminate H.
  - destruct (startServer_listens w (configure w (fresh environment)) Hfail)
      as (p' & Hstart & Hlisten & Hexit & _).
    unfold main, start. rewrite Hstart, Hexit, Hexit0, Hlisten.
    repeat split; eauto. intros [? H]. discriminate H.
Qed.

(** X23. When the database answers, [connectDB] returns the handle, the server
    listens and [GET /api/health] reports [Connected]; a later loss of the
    connection shows in the next answer. *)
Theorem server_starts_with_database (conn : MongoConnection) (clock : Z)
    (environment : gmap string string) (now : string) :
  let w := database_up conn clock in
  let p := main w (fresh environment) in
  fst (connectDB w (configure w (fresh environment))) = Some conn /\
  exit_code p = None /\
  (exists answer,
     request_health now p = Some answer /\
     status_code answer = 200 /\
     database (body answer) = "Connected") /\
  (exists answer,
     request_health now (on_disconnected (set_readyState 0 p)) = Some answer /\
     database (body answer) = "Disconnected").
Proof.
  intros w p.
  pose proof (connectDB_outcome w (configure w (fresh environment))) as Hconnect.
  pose proof (configure_alive w (fresh environment)) as (Hexit0 & _ & _).
  destruct (startServer_listens w (configure w (fresh environment)) eq_refl)
    as (p' & Hstart & Hlisten & Hexit & Hready).
  assert (Hp : p = p').
  { subst p. unfold main, start. rewrite Hstart. reflexivity. }
  destruct (connectDB w (configure w (fresh environment))) as [handle p1].
  simpl in Hconnect, Hready. destruct Hconnect as (_ & _ & _ & Hhandle & Hstate).
  rewrite Hp.
  assert (Halive : exit_code p' = None) by (rewrite Hexit, Hexit0; reflexivity).
  split; [exact Hhandle |]. split; [exact Halive |]. split.
  - exists (get_api_health now p'). unfold request_health.
    rewrite Halive, Hlisten. repeat split.
    simpl. unfold database_state. rewrite Hready, Hstate. reflexivity.
  - eexists. unfold request_health. simpl. rewrite Halive, Hlisten.
    split; reflexivity.
Qed.

(** X24. When [app.listen] binds the port it is given (the port is free),
    the server listens on the port named by [PORT], and on 5000 when
    [PORT] is missing or empty. *)
Theorem main_listens_on_requested_port (w : World) (environment : gmap string string) :
  listen_failure w = None ->
  listening (main w (fresh environment)) = Some (requested_port environment).
Proof.
  intros Hfail.
  destruct (startServer_listens w (configure w (fresh environment)) Hfail)
    as (p' & Hstart & Hlisten & _).
  unfold main, start. rewrite Hstart, Hlisten. f_equal.
  unfold PORT, env_set, requested_port. rewrite configure_env. simpl.
  assert (Hport : forall e : gmap string string,
            (if env_set "JWT_EXPIRE" (fresh environment) then e
             else <["JWT_EXPIRE" := "30d"]> e) !! "PORT" = e !! "PORT").
  { intros e. destruct (env_set "JWT_EXPIRE" (fresh environment));
      [reflexivity | apply lookup_insert_ne; done]. }
  rewrite Hport.
  assert (Hport' : (if env_set "JWT_SECRET" (fresh environment) then environment
                    else <["JWT_SECRET" := development_secret w]> environment)
                   !! "PORT" = environment !! "PORT").
  { destruct (env_set "JWT_SECRET" (fresh environment));
      [reflexivity | apply lookup_insert_ne; done]. }
  rewrite Hport'.
  destruct (environment !! "PORT") as [value |]; [| reflexivity].
  simpl. destruct (String.eqb value ""); reflexivity.
Qed.

Lemma main_listens_on_requested_port_witness :
  listening (main (database_down selection_error 0) (fresh (<["PORT" := "8080"]> ∅)))
  = Some (requested_port (<["PORT" := "8080"]> ∅)).
Proof.
  apply (main_listens_on_requested_port (database_down selection_error 0)
           (<["PORT" := "8080"]> ∅)).
  reflexivity.
Defined.

Lemma new_lines_spec (p p' : Process) (added : list console_line) :
  console p' = console p ++ added -> new_lines p p' = added.
Proof. intros H. unfold new_lines. rewrite H. apply drop_app_length. Qed.

(** X25. When the connection attempt fails, [connectDB] prints the allow-list
    hint exactly for a [MongooseServerSelectionError], the network hint
    exactly for a [MongoNetworkError], and in every case the notice that
    the server starts without a database. *)
Theorem connectDB_hints (w : World) (p : Process) (err : MongoError) :
  connect_outcome w = inl err ->
  let lines := new_lines p (snd (connectDB w p)) in
  (whitelist_hint ∈ lines <-> error_name err = "MongooseServerSelectionError") /\
  (network_hint ∈ lines <-> error_name err = "MongoNetworkError") /\
  last lines = Some degraded_notice.
Proof.
  intros Hout lines. subst lines.
  unfold connectDB, mongoose_connect. rewrite Hout.
  destruct (String.eqb_spec (error_name err) "MongooseServerSelectionError") as [Hsel | Hsel].
  - erewrite new_lines_spec;
      [| unfold on_disconnected, say, say_all, set_readyState; simpl;
         rewrite <- !app_assoc; reflexivity].
    simpl. rewrite Hsel. split; [| split; [| reflexivity]].
    + split; [reflexivity |]. intros _. unfold whitelist_hint. set_solver.
    + split; [| discriminate]. unfold network_hint.
      rewrite !elem_of_cons, elem_of_nil. intros H.
      repeat (destruct H as [H | H]; [discriminate H |]). contradiction.
  - destruct (String.eqb_spec (error_name err) "MongoNetworkError") as [Hnet | Hnet].
    + erewrite new_lines_spec;
        [| unfold on_disconnected, say, say_all, set_readyState; simpl;
           rewrite <- !app_assoc; reflexivity].
      simpl. rewrite Hnet. split; [| split; [| reflexivity]].
      * split; [| discriminate]. unfold whitelist_hint.
        rewrite !elem_of_cons, elem_of_nil. intros H.
        repeat (destruct H as [H | H]; [discriminate H |]). contradiction.
      * split; [reflexivity |]. intros _. unfold network_hint. set_solver.
    + erewrite new_lines_spec;
        [| unfold on_disconnected, say, say_all, set_readyState; simpl;
           rewrite <- !app_assoc; reflexivity].
      simpl. split; [| split; [| reflexivity]].
      * split; [| contradiction]. unfold whitelist_hint.
        rewrite !elem_of_cons, elem_of_nil. intros H.
        repeat (destruct H as [H | H]; [discriminate H |]). contradiction.
      * split; [| contradiction]. unfold network_hint.
        rewrite !elem_of_cons, elem_of_nil. intros H.
        repeat (destruct H as [H | H]; [discriminate H |]). contradiction.
Qed.

Lemma connectDB_hints_witness :
  let lines :=
    new_lines (fresh ∅)
      (snd (connectDB (database_down selection_error 0) (fresh ∅))) in
  (whitelist_hint ∈ lines <->
   error_name selection_error = "MongooseServerSelectionError") /\
  (network_hint ∈ lines <-> error_name selection_error = "MongoNetworkError") /\
  last lines = Some degraded_notice.
Proof.
  apply (connectDB_hints (database_down selection_error 0) (fresh ∅) selection_error).
  reflexivity.
Defined.

(** X26. [backend/server.js], run on a free port (so that [app.listen]
    binds it or throws at once). When the router refuses the path of
    [app.options('*', cors())], as version 5 does, the process ends with
    code 1 before it connects or listens. Otherwise it starts listening
    before the connection attempt settles, and ends with code 1 when the
    attempt fails or [app.listen] throws; it keeps running only with the
    database connected. *)
Theorem legacy_load_exit_code (route_error : option string) (w : World)
    (environment : gmap string string) :
  let p := LegacyServer.load route_error w (fresh environment) in
  exit_code p
  = match route_error, listen_failure w, connect_outcome w with
    | None, None, inr _ => None
    | _, _, _ => Some 1
    end /\
  (is_Some route_error -> listening p = None /\ readyState p = 0) /\
  (route_error = None -> listen_failure w = None ->
   listening p = Some (requested_port environment)) /\
  (exit_code p = None -> readyState p = 1).
Proof.
  unfold LegacyServer.load, LegacyServer.main, LegacyServer.serve.
  destruct route_error as [refused |].
  - simpl. repeat split; discriminate.
  - destruct (listen_failure w) as [error |];
      destruct (connect_outcome w) as [err | conn];
      simpl; repeat split; try discriminate.
    all: try match goal with
             | H : is_Some None |- _ => destruct H as [? H]; discriminate H
             end.
    all: f_equal; unfold PORT, env_set, requested_port; simpl;
      destruct (environment !! "PORT") as [value |]; [| reflexivity];
      simpl; destruct (String.eqb value ""); reflexivity.
Qed.

End ServerMore.


(** * [setAuth] with the failures of the platform *)

Module PageFacts.
Import Api JsonText Client Page JsonTextFacts ApiFacts.

Lemma to_json_array (items : list jsany) :
  to_json (JsArray items)
  = match elements_to_json items with
    | inl error => inl error
    | inr elements => inr (Some (JArray elements))
    end.
Proof. reflexivity. Qed.

Lemma to_json_object (fields : list (string * jsany)) :
  to_json (JsObject fields)
  = match members_to_json fields with
    | inl error => inl error
    | inr members => inr (Some (JObject members))
    end.
Proof. reflexivity. Qed.

(** [JSON.stringify] writes a JSON value as it is. *)
Lemma to_json_embed (v : json) : to_json (embed v) = inr (Some v).
Proof.
  induction v as [| b | n | s | items IH | fields IH] using json_nested_ind;
    try reflexivity.
  - cbn [embed]. rewrite to_json_array.
    assert (H : elements_to_json (List.map embed items) = inr items).
    { induction IH as [| x xs Hx _ IHxs]; simpl; [reflexivity |].
      rewrite Hx, IHxs. reflexivity. }
    rewrite H. reflexivity.
  - cbn [embed]. rewrite to_json_object.
    assert (H : members_to_json
                  (List.map (fun field => (fst field, embed (snd field))) fields)
                = inr fields).
    { induction IH as [| [key x] xs Hx _ IHxs]; simpl; [reflexivity |].
      simpl in Hx. rewrite Hx, IHxs. reflexivity. }
    rewrite H. reflexivity.
Qed.

(** The two ways a [setItem] ends. *)
Lemma setItem_run (capacity : nat) (key value : string) (b : Browser) :
  (setItem capacity key value b = localStorage_setItem key value b) \/
  (setItem capacity key value b = (inl (DOMException "QuotaExceededError"), b)).
Proof.
  unfold setItem.
  destruct (storage_size (<[key := value]> (localStorage b)) <=? capacity)%nat; auto.
Qed.

(** The ways a [setAuth] ends: it returns, having written the token, the
    user text and the header; or it throws with nothing written; or it
    throws with the token written and nothing else. *)
Lemma setAuth_outcomes (capacity : nat) (token : string) (user : jsany) (b : Browser) :
  (exists text,
     Page.setAuth capacity token user b =
     (inr tt,
      {| localStorage := <["user" := text]> (<["token" := token]> (localStorage b));
         common_headers :=
           <["Authorization" := "Bearer " +:+ token]> (common_headers b);
         pathname := pathname b;
         effects := effects b ++
                    [StorageSet "token" token; StorageSet "user" text;
                     HeaderSet "Authorization" ("Bearer " +:+ token)] |}) /\
     (forall j, to_json user = inr (Some j) -> text = stringify j)) \/
  (exists error, Page.setAuth capacity token user b = (inl error, b)) \/
  (exists error,
     Page.setAuth capacity token user b =
     (inl error,
      {| localStorage := <["token" := token]> (localStorage b);
         common_headers := common_headers b;
         pathname := pathname b;
         effects := effects b ++ [StorageSet "token" token] |})).
Proof.
  set (b1 := {| localStorage := <["token" := token]> (localStorage b);
                common_headers := common_headers b; pathname := pathname b;
                effects := effects b ++ [StorageSet "token" token] |}).
  assert (Hrest : forall text,
            (let (s, b') := setItem capacity "user" text b1 in
             match s with
             | inl t => (inl t, b')
             | inr _ => set_common_header "Authorization" ("Bearer " +:+ token) b'
             end)
            = (inr tt,
               {| localStorage := <["user" := text]> (<["token" := token]> (localStorage b));
                  common_headers :=
                    <["Authorization" := "Bearer " +:+ token]> (common_headers b);
                  pathname := pathname b;
                  effects := effects b ++
                             [StorageSet "token" token; StorageSet "user" text;
                              HeaderSet "Authorization" ("Bearer " +:+ token)] |})
            \/ (let (s, b') := setItem capacity "user" text b1 in
                match s with
                | inl t => (inl t, b')
                | inr _ => set_common_header "Authorization" ("Bearer " +:+ token) b'
                end)
               = (inl (DOMException "QuotaExceededError"), b1)).
  { intros text.
    destruct (setItem_run capacity "user" text b1) as [-> | ->]; [left | right; reflexivity].
    unfold localStorage_setItem, set_common_header. subst b1. simpl.
    rewrite <- !app_assoc. reflexivity. }
  unfold Page.setAuth, bind.
  destruct (setItem_run capacity "token" token b) as [-> | ->];
    [| right; left; eauto].
  change (localStorage_setItem "token" token b) with (@inr thrown unit tt, b1).
  cbv iota beta. unfold JSON_stringify_any.
  destruct (to_json user) as [error | [j |]] eqn:Hjson.
  - right. right. eexists. reflexivity.
  - unfold ret. cbv iota beta.
    destruct (Hrest (interpolate (Some (stringify j)))) as [-> | ->].
    + left. exists (stringify j). split; [reflexivity |].
      intros j' Hj'. congruence.
    + right. right. eexists. reflexivity.
  - unfold ret. cbv iota beta.
    destruct (Hrest (interpolate None)) as [-> | ->].
    + left. exists "undefined". split; [reflexivity |].
      intros j' Hj'. discriminate Hj'.
    + right. right. eexists. reflexivity.
Qed.

(** [deep_equal] looks through the order of properties and through
    properties left undefined, and tells an extra property apart. *)
Lemma deep_equal_any_order :
  deep_equal
    (JsObject [("a", JsNumber 1); ("b", JsUndefined); ("c", JsArray [JsNaN])])
    (JsObject [("c", JsArray [JsNaN]); ("a", JsNumber 1)]) = true.
Proof. reflexivity. Qed.

Lemma deep_equal_extra_property :
  deep_equal (JsObject [("a", JsNumber 1)])
    (JsObject [("a", JsNumber 1); ("b", JsNull)]) = false.
Proof. reflexivity. Qed.

Lemma deep_equal_sample_user :
  deep_equal (embed sample_user) (embed sample_user) = true.
Proof. reflexivity. Qed.




(** C9 as stated fails. In a browser with room for the token and not for
    the user, [setAuth] stores the token, throws at the second [setItem]
    and leaves the token without a user. *)
Lemma setAuth_full_storage_counterexample :
  ~ (forall (capacity : nat) (token : string) (user : jsany) (b : Browser),
       credentials_paired b ->
       credentials_paired (state_after (Page.setAuth capacity token user) b)).
Proof.
  intros Hclaim.
  assert (Hstart : credentials_paired (signed_out "/login")).
  { unfold credentials_paired, signed_out. simpl.
    rewrite !lookup_empty. split; intros [? H]; discriminate H. }
  destruct (Hclaim 20%nat "abc.def.ghi" (embed sample_user) (signed_out "/login") Hstart)
    as [Htoken _].
  destruct Htoken as [text Htext].
  - exists "abc.def.ghi". vm_compute. reflexivity.
  - vm_compute in Htext. discriminate Htext.
Qed.

(** C9, amended. The token is present in local storage exactly when the
    user is, and every operation of the client that writes them and
    returns keeps it so: a [setAuth] that returns has set both,
    [clearAuth] removes both, the 401 branch of the response interceptor
    removes both. A [setAuth] that throws has written nothing, or the
    token alone. *)
Theorem auth_operations_that_return_keep_credentials_paired
    (capacity : nat) (b : Browser) :
  credentials_paired b ->
  (forall token user,
     result_of (Page.setAuth capacity token user) b = inr tt ->
     let b' := state_after (Page.setAuth capacity token user) b in
     credentials_paired b' /\
     localStorage b' !! "token" = Some token /\
     is_Some (localStorage b' !! "user")) /\
  (let b' := state_after clearAuth b in
   credentials_paired b' /\
   localStorage b' !! "token" = None /\ localStorage b' !! "user" = None) /\
  (forall error, is_unauthorized error ->
     let b' := state_after (responseRejected error) b in
     credentials_paired b' /\
     localStorage b' !! "token" = None /\ localStorage b' !! "user" = None) /\
  (forall token user error,
     result_of (Page.setAuth capacity token user) b = inl error ->
     let b' := state_after (Page.setAuth capacity token user) b in
     localStorage b' = localStorage b \/
     localStorage b' = <["token" := token]> (localStorage b)).
Proof.
  intros Hpaired. split; [| split; [| split]].
  - intros token user Hreturns b'. subst b'. unfold result_of, state_after in *.
    destruct (setAuth_outcomes capacity token user b)
      as [(text & Hrun & _) | [(error & Hrun) | (error & Hrun)]];
      rewrite Hrun in *; try discriminate Hreturns.
    simpl. unfold credentials_paired. simpl.
    rewrite lookup_insert_eq, lookup_insert_ne, lookup_insert_eq by done.
    repeat split; eauto.
  - intros b'. subst b'. unfold state_after. rewrite clearAuth_run.
    unfold credentials_paired. simpl.
    rewrite lookup_delete_eq, lookup_delete_ne, lookup_delete_eq by done.
    repeat split; intros [? H]; discriminate H.
  - intros error Hunauth b'. subst b'. unfold state_after.
    rewrite (responseRejected_unauthorized_run error b Hunauth).
    unfold credentials_paired. simpl.
    rewrite lookup_delete_eq, lookup_delete_ne, lookup_delete_eq by done.
    repeat split; intros [? H]; discriminate H.
  - intros token user error Hthrows b'. subst b'. unfold result_of, state_after in *.
    destruct (setAuth_outcomes capacity token user b)
      as [(text & Hrun & _) | [(error' & Hrun) | (error' & Hrun)]];
      rewrite Hrun in *; try discriminate Hthrows; simpl; auto.
Qed.

Lemma auth_operations_that_return_keep_credentials_paired_witness :
  credentials_paired (signed_out "/login") /\
  credentials_paired
    (state_after (Page.setAuth 1000 "abc.def.ghi" (embed sample_user))
       (signed_out "/login")).
Proof.
  assert (Hstart : credentials_paired (signed_out "/login")).
  { unfold credentials_paired, signed_out. simpl.
    rewrite !lookup_empty. split; intros [? H]; discriminate H. }
  split; [exact Hstart |].
  destruct (auth_operations_that_return_keep_credentials_paired 1000
              (signed_out "/login") Hstart) as (Hset & _).
  apply (Hset "abc.def.ghi" (embed sample_user)).
  vm_compute. reflexivity.
Defined.

(** With room in the storage area, [setAuth] on a JSON value does what
    [Api.setAuth] describes. *)
Lemma setAuth_refines (capacity : nat) (token : string) (user : json) (b : Browser) :
  result_of (Page.setAuth capacity token (embed user)) b = inr tt ->
  Page.setAuth capacity token (embed user) b
  = Api.setAuth (codec := text_codec) token user b.
Proof.
  intros Hreturns. unfold result_of in Hreturns.
  destruct (setAuth_outcomes capacity token (embed user) b)
    as [(text & Hrun & Htext) | [(error & Hrun) | (error & Hrun)]];
    rewrite Hrun in *; try discriminate Hreturns.
  rewrite (Htext user (to_json_embed user)), ApiFacts.setAuth_run. reflexivity.
Qed.

End PageFacts.
